(** * dlt: the Qdrant destination client and the pipeline helpers

    A shallow embedding of

    - [dlt/destinations/impl/qdrant/qdrant_client.py]
      ([LoadQdrantJob], [QdrantClient]) and
    - [dlt/pipeline/helpers.py] ([retry_load], [DropCommand]).

    Python dictionaries are finite maps ([gmap string value]), sequences are
    lists, and a call that may raise returns a [res].  The Qdrant server
    (the [db_client] object), the clock, the random source and the parts of
    dlt that live in other files are parameters of the development
    ([Externals], [PipelineOps]): every theorem holds for all of them, and
    the examples instantiate them with small concrete objects.

    Exceptions are instances of Python's [Exception]; [KeyboardInterrupt]
    and the like, which [except Exception] does not catch, are outside the
    model. *)

From stdpp Require Import gmap strings list pretty.
From Stdlib Require Import Ascii ZArith QArith Qround Lia.

Local Open Scope Z_scope.
Local Open Scope string_scope.
Local Open Scope list_scope.

(** ** Python values, exceptions and results *)

Module Py.

(** The scalar values a normalized record holds in a column. *)
Inductive value :=
| VNone
| VBool (b : bool)
| VInt (z : Z)
| VStr (s : string).

#[global] Instance value_eq_dec : EqDecision value.
Proof. solve_decision. Defined.

(** [str(v)] *)
Definition str (v : value) : string :=
  match v with
  | VNone => "None"
  | VBool true => "True"
  | VBool false => "False"
  | VInt z => pretty z
  | VStr s => s
  end.

(** A dictionary with string keys. *)
Abbreviation dict := (gmap string value).

Inductive exn :=
| ValueError (msg : string)
| UnexpectedResponse (status_code : Z)
| KeyError (key : string)
| IndexError
| TypeError
| OtherException (cls : string).

#[global] Instance exn_eq_dec : EqDecision exn.
Proof. solve_decision. Defined.

Inductive res (A : Type) :=
| Ok (a : A)
| Raise (e : exn).
Arguments Ok {A} a.
Arguments Raise {A} e.

(** [sep.join(parts)] *)
Definition join (sep : string) (parts : list string) : string :=
  String.concat sep parts.

(** [needle in haystack] on strings *)
Fixpoint contains (needle haystack : string) : bool :=
  if String.prefix needle haystack then true
  else match haystack with
       | EmptyString => false
       | String _ rest => contains needle rest
       end.

(** Truth value of a string, a list, an optional value. *)
Definition truthy_str (s : string) : bool :=
  match s with EmptyString => false | _ => true end.

Definition truthy_list {A} (l : list A) : bool :=
  match l with [] => false | _ => true end.

End Py.
Export Py.

(** ** The Qdrant destination client *)

Module Qdrant.

(** *** The data the client exchanges with the server *)

Inductive point_id :=
| IntId (n : Z)
| UuidId (s : string).

#[global] Instance point_id_eq_dec : EqDecision point_id.
Proof. solve_decision. Defined.

(** A stored point as [scroll] returns it. *)
Record Point := { p_id : point_id; p_payload : dict }.

(** [with_payload]: [True] or a list of property names. *)
Inductive payload_selector :=
| AllFields
| Fields (names : list string).

(** The [vectors] argument of [upload_collection]: [[{}] * n], or the
    embeddings of [docs] stored under [vector_name].  The embedding model
    itself is not part of this development. *)
Inductive vectors_arg :=
| NoVectors (n : nat)
| Embeddings (vector_name : string) (docs : list string).

(** The calls made on [self.db_client].  A filter is always
    [Filter(must=[FieldCondition(key, MatchValue(match_value))])]. *)
Inductive request :=
| get_collection (collection_name : string)
| create_collection (collection_name : string)
| delete_collection (collection_name : string)
| upsert (collection_name : string) (point : Point)
| upload_collection (collection_name : string) (ids : list point_id)
    (payload : list dict) (vectors : vectors_arg)
| scroll (collection_name : string) (with_payload : payload_selector)
    (key : string) (match_value : value) (limit : Z) (offset : option point_id)
| count (collection_name : string) (key : string) (match_value : value).

(** What a call gives back: nothing, a collection description, a page of
    records with the offset of the next page, a count, or an exception. *)
Inductive reply :=
| RNone
| RInfo
| RPage (records : list Point) (next_page_offset : option point_id)
| RCount (n : Z)
| RRaise (e : exn).

Abbreviation event := (request * reply)%type.

(** *** Table schemas *)

Record TColumnSchema := {
  column_name : string;
  column_props : gmap string bool
}.

Record TTableSchema := {
  table_name : string;
  write_disposition : option string;
  columns : list TColumnSchema
}.

Record Schema := {
  name : string;
  version : Z;
  ENGINE_VERSION : Z;
  stored_version_hash : string;
  version_hash : string;
  tables : list string;
  version_table_name : string;
  loads_table_name : string;
  state_table_name : string;
  to_dict_json : string
}.

Record StorageSchemaInfo := { schema_info_fields : dict }.
Record StateInfo := { state_info_fields : dict }.

(** *** What the client takes from outside this file *)

Class Externals := {
  (** the server behind [db_client]: its state and its answer to a call *)
  St : Type;
  db_client : St -> request -> reply * St;
  (** [schema.naming.normalize_identifier] *)
  normalize_identifier : string -> string;
  (** the [n]-th reading of [precise_time()], in seconds *)
  precise_time : nat -> Q;
  (** the [n]-th reading of [pendulum.now()], printed *)
  pendulum_now : nat -> string;
  (** [str(uuid.uuid5(namespace, name))] *)
  uuid5 : string -> string -> string;
  (** the [n]-th draw of [uuid.uuid4()] *)
  uuid4 : nat -> string;
  (** [dlt.common.schema.utils.get_columns_names_with_prop] *)
  get_columns_names_with_prop : TTableSchema -> string -> list string;
  (** [qdrant_adapter.VECTORIZE_HINT] *)
  VECTORIZE_HINT : string;
  (** [db_client.get_vector_field_name()] *)
  vector_field_name : string;
  (** whether the constructors [StateInfo] and [StorageSchemaInfo] accept
      a payload as their keyword arguments *)
  StateInfo_accepts : dict -> bool;
  StorageSchemaInfo_accepts : dict -> bool;
  (** [JobClientBase.update_stored_schema], the check of the schema that
      [super().update_stored_schema] runs before anything is sent *)
  JobClientBase_update_stored_schema : Schema -> option (list string) -> res unit
}.

(** [uuid.NAMESPACE_DNS] *)
Definition NAMESPACE_DNS : string := "6ba7b810-9dad-11d1-80b4-00c04fd430c8".

(** [int(x)] on a rational: truncation towards zero. *)
Definition int_of_Q (x : Q) : Z := Z.quot (Qnum x) (Z.pos (Qden x)).

(** The id [_create_point_no_vector] gives a point inserted at time [t]:
    [2**64 - int(precise_time() * 10**6)]. *)
Definition point_id_at (t : Q) : Z := 2 ^ 64 - int_of_Q (t * (10 ^ 6 # 1))%Q.

Section Client.
Context `{Externals}.

(** *** Effects: the server, the log of calls, the clock, the random source *)

Record world := {
  db : St;
  log : list event;
  clock : nat;
  entropy : nat
}.

Definition M (A : Type) : Type := world -> res A * world.

Definition ret {A} (a : A) : M A := fun w => (Ok a, w).
Definition raise {A} (e : exn) : M A := fun w => (Raise e, w).
Definition bind {A B} (m : M A) (k : A -> M B) : M B :=
  fun w => match m w with
           | (Ok a, w') => k a w'
           | (Raise e, w') => (Raise e, w')
           end.
(** [try: body  except Exception as e: handler(e)] *)
Definition try_except {A} (body : M A) (handler : exn -> M A) : M A :=
  fun w => match body w with
           | (Ok a, w') => (Ok a, w')
           | (Raise e, w') => handler e w'
           end.

Notation "x <- m ;; k" := (bind m (fun x => k))
  (at level 100, m at next level, right associativity).
Notation "m ;;; k" := (bind m (fun _ => k))
  (at level 100, right associativity).

(** One call on [db_client], logged with its answer. *)
Definition call (r : request) : M reply :=
  fun w => let '(a, s) := db_client (db w) r in
           (Ok a, {| db := s; log := log w ++ [(r, a)];
                     clock := clock w; entropy := entropy w |}).

(** A call whose value is not used. *)
Definition call_ (r : request) : M unit :=
  a <- call r ;;
  match a with
  | RRaise e => raise e
  | _ => ret tt
  end.

Definition read_precise_time : M Q :=
  fun w => (Ok (precise_time (clock w)),
            {| db := db w; log := log w; clock := S (clock w); entropy := entropy w |}).

Definition read_pendulum_now : M string :=
  fun w => (Ok (pendulum_now (clock w)),
            {| db := db w; log := log w; clock := S (clock w); entropy := entropy w |}).

Definition draw_uuid4 : M point_id :=
  fun w => (Ok (UuidId (uuid4 (entropy w))),
            {| db := db w; log := log w; clock := clock w; entropy := S (entropy w) |}).

(** [d[key]] *)
Definition getitem (d : dict) (key : string) : res value :=
  match d !! key with
  | Some v => Ok v
  | None => Raise (KeyError key)
  end.

Definition lift {A} (r : res A) : M A := fun w => (r, w).

(** [for x in xs: body(x)] *)
Fixpoint for_each {A} (xs : list A) (body : A -> M unit) : M unit :=
  match xs with
  | [] => ret tt
  | x :: rest => body x ;;; for_each rest body
  end.

(** [{k: v for k, v in zip(keys, values)}] *)
Definition dict_of_zip (keys : list string) (values : list value) : dict :=
  foldl (fun m kv => <[fst kv := snd kv]> m) ∅ (zip keys values).

(** *** LoadQdrantJob *)

(** [str(data[key]) for key in keys] *)
Fixpoint str_items (data : dict) (keys : list string) : res (list string) :=
  match keys with
  | [] => Ok []
  | key :: rest =>
      match getitem data key with
      | Raise e => Raise e
      | Ok v => match str_items data rest with
                | Raise e => Raise e
                | Ok vs => Ok (str v :: vs)
                end
      end
  end.

Definition join_items (sep : string) (data : dict) (keys : list string) : res string :=
  match str_items data keys with
  | Ok vs => Ok (join sep vs)
  | Raise e => Raise e
  end.

Definition _get_embedding_doc (embedding_fields : list string) (data : dict) : res string :=
  join_items (String "010"%char EmptyString) data embedding_fields.

Definition _list_unique_identifiers (table_schema : TTableSchema) : list string :=
  let fallback := get_columns_names_with_prop table_schema "unique" in
  if decide (write_disposition table_schema = Some "merge") then
    let primary_keys := get_columns_names_with_prop table_schema "primary_key" in
    if truthy_list primary_keys then primary_keys else fallback
  else fallback.

Definition _generate_uuid (data : dict) (unique_identifiers : list string)
    (collection_name : string) : res string :=
  match join_items "_" data unique_identifiers with
  | Ok data_id => Ok (uuid5 NAMESPACE_DNS (collection_name ++ data_id))
  | Raise e => Raise e
  end.

(** The id the constructor gives one record of the file. *)
Definition point_id_for (unique_identifiers : list string) (collection_name : string)
    (data : dict) : M point_id :=
  if truthy_list unique_identifiers then
    s <- lift (_generate_uuid data unique_identifiers collection_name) ;;
    ret (UuidId s)
  else draw_uuid4.

(** The loop over the lines of the file; a line is given as [json.loads]
    returned it.  The result is [(docs, payloads, ids)]. *)
Fixpoint read_lines (embedding_fields unique_identifiers : list string)
    (collection_name : string) (lines : list dict)
    : M (list string * list dict * list point_id) :=
  match lines with
  | [] => ret ([], [], [])
  | data :: rest =>
      point_id <- point_id_for unique_identifiers collection_name data ;;
      doc <- (if (0 <? length embedding_fields)%nat
              then d <- lift (_get_embedding_doc embedding_fields data) ;; ret [d]
              else ret []) ;;
      r <- read_lines embedding_fields unique_identifiers collection_name rest ;;
      let '(docs, payloads, ids) := r in
      ret (doc ++ docs, data :: payloads, point_id :: ids)
  end.

Record LoadQdrantJob := {
  job_collection_name : string;
  embedding_fields : list string;
  unique_identifiers : list string
}.

Definition _upload_data (collection_name : string) (ids : list point_id)
    (vectors : vectors_arg) (payloads : list dict) : M unit :=
  call_ (upload_collection collection_name ids payloads vectors).

(** [LoadQdrantJob.__init__] *)
Definition LoadQdrantJob_init (table_schema : TTableSchema) (lines : list dict)
    (collection_name : string) : M LoadQdrantJob :=
  let embedding_fields := get_columns_names_with_prop table_schema VECTORIZE_HINT in
  let unique_identifiers := _list_unique_identifiers table_schema in
  r <- read_lines embedding_fields unique_identifiers collection_name lines ;;
  let '(docs, payloads, ids) := r in
  let embeddings :=
    if (0 <? length embedding_fields)%nat
    then Embeddings vector_field_name docs
    else NoVectors (length ids) in
  _upload_data collection_name ids embeddings payloads ;;;
  ret {| job_collection_name := collection_name;
         embedding_fields := embedding_fields;
         unique_identifiers := unique_identifiers |}.

(** *** QdrantClient *)

Record QdrantClient := {
  schema : Schema;
  (** [config.normalize_dataset_name(schema)]: a name, empty or [None] *)
  dataset_name : option string;
  dataset_separator : string;
  version_collection_properties : list string;
  loads_collection_properties : list string;
  pipeline_state_properties : list string
}.

Definition truthy_opt (o : option string) : bool :=
  match o with
  | Some s => truthy_str s
  | None => false
  end.

Definition sentinel_collection (self : QdrantClient) : string :=
  if truthy_opt (dataset_name self)
  then default "" (dataset_name self)
  else "DltSentinelCollection".

Definition _make_qualified_collection_name (self : QdrantClient)
    (table_name : string) : string :=
  if truthy_opt (dataset_name self)
  then default "" (dataset_name self) ++ dataset_separator self ++ table_name
  else table_name.

(** A call whose value is used: an exception of the server is raised here. *)
Definition call_v (r : request) : M reply :=
  a <- call r ;;
  match a with
  | RRaise e => raise e
  | _ => ret a
  end.

Definition _create_collection (self : QdrantClient) (full_collection_name : string)
    : M unit :=
  call_ (create_collection full_collection_name).

Definition _create_point_no_vector (self : QdrantClient) (obj : dict)
    (collection_name : string) : M unit :=
  t <- read_precise_time ;;
  let id_ := point_id_at t in
  call_ (upsert collection_name {| p_id := IntId id_; p_payload := obj |}).

Definition _collection_exists (self : QdrantClient) (table_name : string)
    (qualify_table_name : bool) : M bool :=
  let table_name :=
    if qualify_table_name
    then _make_qualified_collection_name self table_name
    else table_name in
  a <- call (get_collection table_name) ;;
  match a with
  | RRaise (ValueError msg) =>
      if contains "not found" msg then ret false else raise (ValueError msg)
  | RRaise (UnexpectedResponse status_code) =>
      if (status_code =? 404)%Z then ret false
      else raise (UnexpectedResponse status_code)
  | RRaise e => raise e
  | _ => ret true
  end.

Definition is_storage_initialized (self : QdrantClient) : M bool :=
  _collection_exists self (sentinel_collection self) false.

Definition _create_sentinel_collection (self : QdrantClient) : M unit :=
  _create_collection self (sentinel_collection self).

Definition _delete_sentinel_collection (self : QdrantClient) : M unit :=
  call_ (delete_collection (sentinel_collection self)).

(** The body of the loop of [initialize_storage] for one table. *)
Definition truncate_one (self : QdrantClient) (table_name : string) : M unit :=
  let qualified_table_name := _make_qualified_collection_name self table_name in
  found <- _collection_exists self qualified_table_name true ;;
  if found then ret tt
  else
    call_ (delete_collection qualified_table_name) ;;;
    _create_collection self qualified_table_name.

Definition initialize_storage (self : QdrantClient)
    (truncate_tables : option (list string)) : M unit :=
  initialized <- is_storage_initialized self ;;
  if negb initialized then _create_sentinel_collection self
  else if truthy_list (default [] truncate_tables)
  then for_each (default [] truncate_tables) (truncate_one self)
  else ret tt.

(** [response[0][0].payload] *)
Definition first_payload (response : reply) : res dict :=
  match response with
  | RPage (r :: _) _ => Ok (p_payload r)
  | RPage [] _ => Raise IndexError
  | _ => Raise TypeError
  end.

Definition make_StorageSchemaInfo (record : dict) : res StorageSchemaInfo :=
  if StorageSchemaInfo_accepts record
  then Ok {| schema_info_fields := record |}
  else Raise TypeError.

Definition make_StateInfo (state : dict) : res StateInfo :=
  if StateInfo_accepts state
  then Ok {| state_info_fields := state |}
  else Raise TypeError.

Definition get_stored_schema (self : QdrantClient) : M (option StorageSchemaInfo) :=
  try_except
    (let scroll_table_name :=
       _make_qualified_collection_name self (version_table_name (schema self)) in
     let p_schema_name := normalize_identifier "schema_name" in
     response <- call_v (scroll scroll_table_name AllFields p_schema_name
                           (VStr (name (schema self))) 1 None) ;;
     record <- lift (first_payload response) ;;
     info <- lift (make_StorageSchemaInfo record) ;;
     ret (Some info))
    (fun _ => ret None).

Definition get_stored_schema_by_hash (self : QdrantClient) (schema_hash : string)
    : M (option StorageSchemaInfo) :=
  try_except
    (let scroll_table_name :=
       _make_qualified_collection_name self (version_table_name (schema self)) in
     let p_version_hash := normalize_identifier "version_hash" in
     response <- call_v (scroll scroll_table_name AllFields p_version_hash
                           (VStr schema_hash) 1 None) ;;
     record <- lift (first_payload response) ;;
     info <- lift (make_StorageSchemaInfo record) ;;
     ret (Some info))
    (fun _ => ret None).

Definition _update_schema_in_storage (self : QdrantClient) (schema_ : Schema)
    : M unit :=
  let schema_str := to_dict_json schema_ in
  now <- read_pendulum_now ;;
  let values :=
    [VInt (version schema_); VInt (ENGINE_VERSION schema_); VStr now;
     VStr (name schema_); VStr (stored_version_hash schema_); VStr schema_str] in
  if negb (length values =? length (version_collection_properties self))%nat
  then raise (OtherException "AssertionError")
  else
    let properties := dict_of_zip (version_collection_properties self) values in
    let version_table_name_ :=
      _make_qualified_collection_name self (version_table_name (schema self)) in
    _create_point_no_vector self properties version_table_name_.

(** [only_tables or self.schema.tables] *)
Definition tables_in_scope (self : QdrantClient) (only_tables : option (list string))
    : list string :=
  if truthy_list (default [] only_tables)
  then default [] only_tables
  else tables (schema self).

Definition ensure_collection (self : QdrantClient) (table_name : string) : M unit :=
  found <- _collection_exists self table_name true ;;
  if negb found
  then _create_collection self (_make_qualified_collection_name self table_name)
  else ret tt.

Definition _execute_schema_update (self : QdrantClient)
    (only_tables : option (list string)) : M unit :=
  for_each (tables_in_scope self only_tables) (ensure_collection self) ;;;
  _update_schema_in_storage self (schema self).

Definition update_stored_schema (self : QdrantClient)
    (only_tables : option (list string)) : M (list TTableSchema) :=
  lift (JobClientBase_update_stored_schema (schema self) only_tables) ;;;
  let applied_update := [] in
  schema_info <- get_stored_schema_by_hash self (stored_version_hash (schema self)) ;;
  match schema_info with
  | None => _execute_schema_update self only_tables ;;; ret applied_update
  | Some _ => ret applied_update
  end.

Definition complete_load (self : QdrantClient) (load_id : string) : M unit :=
  now <- read_pendulum_now ;;
  let values :=
    [VStr load_id; VStr (name (schema self)); VInt 0; VStr now;
     VStr (version_hash (schema self))] in
  if negb (length values =? length (loads_collection_properties self))%nat
  then raise (OtherException "AssertionError")
  else
    let properties := dict_of_zip (loads_collection_properties self) values in
    let loads_table_name_ :=
      _make_qualified_collection_name self (loads_table_name (schema self)) in
    _create_point_no_vector self properties loads_table_name_.

(** **** get_stored_state *)

(** [state_records, offset = response] *)
Definition unpack_page (response : reply) : res (list Point * option point_id) :=
  match response with
  | RPage records next_page_offset => Ok (records, next_page_offset)
  | _ => Raise TypeError
  end.

(** [load_records.count] *)
Definition count_of (response : reply) : res Z :=
  match response with
  | RCount n => Ok n
  | _ => Raise TypeError
  end.

(** The [for state_record in state_records] loop: [Some info] when it
    returns [StateInfo], [None] when it runs to its end. *)
Fixpoint scan_state_records (self : QdrantClient) (p_load_id p_dlt_load_id : string)
    (state_records : list Point) : M (option StateInfo) :=
  match state_records with
  | [] => ret None
  | state_record :: rest =>
      let state := p_payload state_record in
      load_id <- lift (getitem state p_dlt_load_id) ;;
      let scroll_table_name :=
        _make_qualified_collection_name self (loads_table_name (schema self)) in
      response <- call_v (count scroll_table_name p_load_id load_id) ;;
      load_records <- lift (count_of response) ;;
      if (0 <? load_records)%Z
      then info <- lift (make_StateInfo state) ;; ret (Some info)
      else scan_state_records self p_load_id p_dlt_load_id rest
  end.

(** One turn of [while True]: the function returns, or goes round again
    with the offset the server gave. *)
Inductive turn :=
| Return (r : option StateInfo)
| Again (offset : option point_id).

Definition get_stored_state_turn (self : QdrantClient) (pipeline_name : string)
    (offset : option point_id) : M turn :=
  let p_load_id := normalize_identifier "load_id" in
  let p_dlt_load_id := normalize_identifier "_dlt_load_id" in
  let p_pipeline_name := normalize_identifier "pipeline_name" in
  let limit := 100 in
  try_except
    (let scroll_table_name :=
       _make_qualified_collection_name self (state_table_name (schema self)) in
     response <- call_v (scroll scroll_table_name
                           (Fields (pipeline_state_properties self))
                           p_pipeline_name (VStr pipeline_name) limit offset) ;;
     page <- lift (unpack_page response) ;;
     let '(state_records, offset') := page in
     if (length state_records =? 0)%nat then ret (Return None)
     else
       found <- scan_state_records self p_load_id p_dlt_load_id state_records ;;
       match found with
       | Some info => ret (Return (Some info))
       | None => ret (Again offset')
       end)
    (fun _ => ret (Return None)).

(** [while True], with [fuel] turns allowed; [None] when they are used up. *)
Fixpoint get_stored_state_from (self : QdrantClient) (pipeline_name : string)
    (fuel : nat) (offset : option point_id) (w : world)
    : option (res (option StateInfo) * world) :=
  match fuel with
  | O => None
  | S fuel' =>
      match get_stored_state_turn self pipeline_name offset w with
      | (Ok (Return r), w') => Some (Ok r, w')
      | (Ok (Again offset'), w') =>
          get_stored_state_from self pipeline_name fuel' offset' w'
      | (Raise e, w') => Some (Raise e, w')
      end
  end.

Definition get_stored_state (self : QdrantClient) (pipeline_name : string)
    (fuel : nat) : world -> option (res (option StateInfo) * world) :=
  get_stored_state_from self pipeline_name fuel None.

End Client.
End Qdrant.

(** ** The pipeline helpers *)

Module Helpers.

(** *** retry_load *)

(** An exception as [_retry_load] looks at it: [step_failed] is the step
    when it is an instance of [PipelineStepFailed], [terminal] says whether
    it is an instance of [TerminalException], [context] is [__context__]. *)
#[local] Set Warnings "-register-all".
Inductive BaseException :=
| Exc (step_failed : option string) (terminal : bool)
      (context : option BaseException).
#[local] Set Warnings "register-all".

Definition is_terminal (ex : BaseException) : bool :=
  match ex with Exc _ terminal _ => terminal end.

Definition step_of (ex : BaseException) : option string :=
  match ex with Exc step_failed _ _ => step_failed end.

Definition context_of (ex : BaseException) : option BaseException :=
  match ex with Exc _ _ context => context end.

(** The default of [retry_on_pipeline_steps]. *)
Definition default_retry_steps : list string := ["load"].

Definition retry_load (retry_on_pipeline_steps : list string)
    (ex : BaseException) : bool :=
  if match step_of ex with
     | Some step => negb (bool_decide (step ∈ retry_on_pipeline_steps))
     | None => false
     end
  then false
  else if is_terminal ex
          || match context_of ex with
             | Some context => is_terminal context
             | None => false
             end
  then false
  else true.

(** *** DropCommand *)

Inductive error :=
| PipelineNeverRan (pipeline_name pipelines_dir : string)
| PipelineHasPendingDataException (pipeline_name pipelines_dir : string)
| SchemaKeyError (schema_name : string)
| Raised (ex : BaseException).

Inductive result (A : Type) :=
| Done (a : A)
| Fail (e : error).
Arguments Done {A} a.
Arguments Fail {A} e.

(** The summary [drop_resources] returns as [info]. *)
Record DropInfo := {
  info_tables : list string;
  info_state_paths : list string;
  info_resource_states : list string
}.

(** The pipeline object and the functions of [dlt.pipeline] the command
    calls; none of them is defined in [helpers.py].  A method that may fail
    gives the exception it raised, if any, and the pipeline as it left it. *)
Class PipelineOps := {
  Schema : Type;
  State : Type;
  Pipeline : Type;
  pipeline_name : Pipeline -> string;
  pipelines_dir : Pipeline -> string;
  default_schema_name : Pipeline -> option string;
  (** [pipeline.schemas[name]] *)
  schemas_get : Pipeline -> string -> option Schema;
  (** [pipeline.state] *)
  state : Pipeline -> State;
  has_pending_data : Pipeline -> bool;
  sync_destination : Pipeline -> option BaseException * Pipeline;
  _save_and_extract_state_and_schema :
    State -> Schema -> list string -> Pipeline -> option BaseException * Pipeline;
  normalize : Pipeline -> option BaseException * Pipeline;
  load : bool -> Pipeline -> option BaseException * Pipeline;
  drop_pending_packages : Pipeline -> Pipeline;
  (** [with pipeline.managed_state() as state: f(state)] *)
  managed_state : (State -> State) -> Pipeline -> Pipeline;
  (** [pipeline.schemas.save_schema(schema)] *)
  schemas_save_schema : Schema -> Pipeline -> Pipeline;
  schema_name_of : Schema -> string;
  _bump_version : Schema -> Schema;
  (** [dlt.pipeline.state_sync.force_state_extract] *)
  force_state_extract : State -> State;
  (** [dlt.pipeline.drop.drop_resources]: the new schema, the new state,
      the summary and the dropped tables; the schema and the state it is
      given are left as they are *)
  drop_resources :
    Schema -> State -> list string -> list string -> bool -> bool ->
    Schema * State * DropInfo * list string
}.

(** The calls made on the pipeline, in the order they are made. *)
Inductive pcall `{PipelineOps} :=
| call_sync_destination
| call_save_and_extract (new_state : State) (schema : Schema)
    (dropped_tables : list string)
| call_normalize
| call_load (raise_on_failed_jobs : bool)
| call_drop_pending_packages
| call_managed_state_force_state_extract
| call_save_schema (schema : Schema).

Section Drop.
Context `{PipelineOps}.

Record DropCommand := {
  cmd_schema : Schema;
  _new_state : State;
  info : DropInfo;
  _new_schema : Schema;
  _dropped_tables : list string;
  drop_tables : bool;
  drop_state : bool
}.

(** [DropCommand.__init__]; [schema.clone()] and [deepcopy] copy a value
    and are the identity here. *)
Definition DropCommand_init (pipeline : Pipeline) (resources : list string)
    (schema_name : option string) (state_paths : list string)
    (drop_all state_only : bool) : result DropCommand :=
  if negb (Qdrant.truthy_opt (default_schema_name pipeline))
  then Fail (PipelineNeverRan (pipeline_name pipeline) (pipelines_dir pipeline))
  else
    let key := if Qdrant.truthy_opt schema_name
               then default "" schema_name
               else default "" (default_schema_name pipeline) in
    match schemas_get pipeline key with
    | None => Fail (SchemaKeyError key)
    | Some schema =>
        let '(new_schema, new_state, drop_info, dropped_tables) :=
          drop_resources schema (state pipeline) resources state_paths
            drop_all state_only in
        Done {| cmd_schema := schema;
                _new_state := new_state;
                info := drop_info;
                _new_schema := new_schema;
                _dropped_tables := dropped_tables;
                drop_tables := negb state_only && truthy_list dropped_tables;
                drop_state := drop_all || truthy_list resources
                              || truthy_list state_paths |}
    end.

Definition is_empty (self : DropCommand) : bool :=
  (length (info_tables (info self)) =? 0)%nat
  && (length (info_state_paths (info self)) =? 0)%nat
  && (length (info_resource_states (info self)) =? 0)%nat.

(** The pipeline and the calls made on it so far. *)
Definition run : Type := (Pipeline * list pcall)%type.

(** A method that may raise. *)
Definition invoke (c : pcall) (f : Pipeline -> option BaseException * Pipeline)
    (r : run) : option BaseException * run :=
  let '(ex, p) := f (fst r) in (ex, (p, snd r ++ [c])).

(** A method that does not. *)
Definition perform (c : pcall) (f : Pipeline -> Pipeline) (r : run) : run :=
  (f (fst r), snd r ++ [c]).

(** The [except Exception] branch of [__call__], before [raise]. *)
Definition recover (self : DropCommand) (r : run) : run :=
  let r := perform call_drop_pending_packages drop_pending_packages r in
  let r := perform call_managed_state_force_state_extract
             (managed_state force_state_extract) r in
  perform (call_save_schema (cmd_schema self))
    (schemas_save_schema (cmd_schema self)) r.

(** [DropCommand.__call__] *)
Definition DropCommand_call (self : DropCommand) (r : run) : result unit * run :=
  if has_pending_data (fst r)
  then (Fail (PipelineHasPendingDataException (pipeline_name (fst r))
                (pipelines_dir (fst r))), r)
  else
    match invoke call_sync_destination sync_destination r with
    | (Some ex, r) => (Fail (Raised ex), r)
    | (None, r) =>
        if negb (drop_state self) && negb (drop_tables self)
        then (Done tt, r)
        else
          let new_schema := _bump_version (_new_schema self) in
          let new_state := force_state_extract (_new_state self) in
          match invoke (call_save_and_extract new_state new_schema
                          (_dropped_tables self))
                  (_save_and_extract_state_and_schema new_state new_schema
                     (_dropped_tables self)) r with
          | (Some ex, r) => (Fail (Raised ex), r)
          | (None, r) =>
              match invoke call_normalize normalize r with
              | (Some ex, r) => (Fail (Raised ex), r)
              | (None, r) =>
                  match invoke (call_load true) (load true) r with
                  | (Some ex, r) => (Fail (Raised ex), recover self r)
                  | (None, r) => (Done tt, r)
                  end
              end
          end
    end.

(** [drop(pipeline, ...)] *)
Definition drop (pipeline : Pipeline) (resources : list string)
    (schema_name : option string) (state_paths : list string)
    (drop_all state_only : bool) (calls : list pcall) : result unit * run :=
  match DropCommand_init pipeline resources schema_name state_paths
          drop_all state_only with
  | Fail e => (Fail e, (pipeline, calls))
  | Done command => DropCommand_call command (pipeline, calls)
  end.

End Drop.
End Helpers.

(** ** A small server and a small pipeline to run the code on *)

(** An in-memory server that answers the calls of [Qdrant.request] the way
    the client library documents them: points are kept in ascending order
    of their ids, [scroll] returns at most [limit] matching points from
    [offset] on together with the id of the first point it left out
    ([None] when there is none), a missing collection is reported by
    [ValueError] with a message that says "not found". *)
Module MemStore.
Import Qdrant.

Abbreviation store := (gmap string (list Point)).

Definition id_ltb (a b : point_id) : bool :=
  match a, b with
  | IntId m, IntId n => (m <? n)%Z
  | IntId _, UuidId _ => true
  | UuidId _, IntId _ => false
  | UuidId s, UuidId t => String.ltb s t
  end.

(** Insert or overwrite: one point per id. *)
Fixpoint put (p : Point) (points : list Point) : list Point :=
  match points with
  | [] => [p]
  | q :: rest =>
      if decide (p_id p = p_id q) then p :: rest
      else if id_ltb (p_id p) (p_id q) then p :: q :: rest
      else q :: put p rest
  end.

Definition matches (key : string) (v : value) (p : Point) : bool :=
  bool_decide (p_payload p !! key = Some v).

Definition restrict (sel : payload_selector) (p : Point) : Point :=
  match sel with
  | AllFields => p
  | Fields names =>
      {| p_id := p_id p;
         p_payload := filter (fun kv => fst kv ∈ names) (p_payload p) |}
  end.

Definition from_offset (offset : option point_id) (points : list Point)
    : list Point :=
  match offset with
  | None => points
  | Some o => List.filter (fun p => negb (id_ltb (p_id p) o)) points
  end.

Definition not_found (collection_name : string) : reply :=
  RRaise (ValueError ("Collection " ++ collection_name ++ " not found")).

Definition serve (s : store) (r : request) : reply * store :=
  match r with
  | get_collection c =>
      (match s !! c with Some _ => RInfo | None => not_found c end, s)
  | create_collection c =>
      match s !! c with
      | Some _ => (RRaise (ValueError ("Collection " ++ c ++ " already exists")), s)
      | None => (RNone, <[c := []]> s)
      end
  | delete_collection c => (RNone, delete c s)
  | upsert c p =>
      match s !! c with
      | Some points => (RNone, <[c := put p points]> s)
      | None => (not_found c, s)
      end
  | upload_collection c ids payloads _ =>
      match s !! c with
      | Some points =>
          (RNone,
           <[c := foldl (fun acc ip => put {| p_id := fst ip; p_payload := snd ip |} acc)
                    points (zip ids payloads)]> s)
      | None => (not_found c, s)
      end
  | scroll c sel key v limit offset =>
      match s !! c with
      | Some points =>
          let hits := List.filter (matches key v) (from_offset offset points) in
          let n := Z.to_nat limit in
          (RPage (map (restrict sel) (take n hits))
                 (match drop n hits with [] => None | p :: _ => Some (p_id p) end), s)
      | None => (not_found c, s)
      end
  | count c key v =>
      match s !! c with
      | Some points => (RCount (Z.of_nat (length (List.filter (matches key v) points))), s)
      | None => (not_found c, s)
      end
  end.

(** Modelled from the spec: [get_columns_names_with_prop] of
    [dlt/common/schema/utils.py], which is not among the sources.  The
    spec's TableSchema has ordered column definitions with per-column
    property flags; the names of the columns that carry the flag are
    returned in the order of the columns. *)
Definition columns_with_prop (t : TTableSchema) (prop : string) : list string :=
  map column_name
    (List.filter (fun c => bool_decide (column_props c !! prop = Some true))
       (columns t)).

(** The externals of the examples.  [uuid5] is a stand-in that keeps the
    name it is given (the real one hashes it); the clock starts at
    1700000000 s and advances by a millisecond per reading. *)
#[local] Instance mem : Externals := {|
  St := store;
  db_client := serve;
  normalize_identifier := fun s => s;
  precise_time := fun n => ((1700000000 # 1) + (Z.of_nat n # 1000))%Q;
  pendulum_now := fun n => ("t" ++ pretty n)%string;
  uuid5 := fun ns name => ("uuid5(" ++ name ++ ")")%string;
  uuid4 := fun n => ("uuid4#" ++ pretty n)%string;
  get_columns_names_with_prop := columns_with_prop;
  VECTORIZE_HINT := "x-qdrant-embed";
  vector_field_name := "fast-bge-small-en";
  StateInfo_accepts := fun _ => true;
  StorageSchemaInfo_accepts := fun _ => true;
  JobClientBase_update_stored_schema := fun _ _ => Ok tt
|}.

Definition start (s : store) : world :=
  {| db := s; log := []; clock := 0; entropy := 0 |}.

Definition demo_schema : Schema := {|
  name := "shop";
  version := 3;
  ENGINE_VERSION := 9;
  stored_version_hash := "h3";
  version_hash := "h3";
  tables := ["_dlt_version"; "_dlt_loads"; "users"; "orders"];
  version_table_name := "_dlt_version";
  loads_table_name := "_dlt_loads";
  state_table_name := "_dlt_pipeline_state";
  to_dict_json := "{}"
|}.

Definition demo_client (dataset : option string) : QdrantClient := {|
  schema := demo_schema;
  dataset_name := dataset;
  dataset_separator := "_";
  version_collection_properties :=
    ["version"; "engine_version"; "inserted_at"; "schema_name"; "version_hash"; "schema"];
  loads_collection_properties :=
    ["load_id"; "schema_name"; "status"; "inserted_at"; "schema_version_hash"];
  pipeline_state_properties :=
    ["version"; "engine_version"; "pipeline_name"; "state"; "created_at"; "_dlt_load_id"]
|}.

End MemStore.

(** A pipeline kept in memory.  Its schema lists each table with the
    resource that produced it; its state lists the resources that have
    state, the keys of the source state, and whether the state is marked
    for extraction. *)
Module ToyPipeline.
Import Helpers.

Record toy_schema := {
  ts_name : string;
  ts_version : Z;
  ts_tables : list (string * string)
}.

Record toy_state := {
  st_resources : list string;
  st_keys : list string;
  st_extract : bool
}.

Record toy_pipeline := {
  tp_name : string;
  tp_dir : string;
  tp_default : option string;
  tp_schemas : gmap string toy_schema;
  tp_state : toy_state;
  tp_packages : list string;
  tp_synced : nat;
  (** what the next [load] raises, if anything *)
  tp_load_raises : option BaseException
}.

Definition elem (x : string) (l : list string) : bool := bool_decide (x ∈ l).

(** Modelled from the spec: [drop_resources] of [dlt/pipeline/drop.py],
    which is not among the sources.  The plan is the schema with the target
    tables removed and its version bumped, the state with the target
    resource entries and state paths removed, the names of the dropped
    tables and the summary [tables], [state_paths], [resource_states];
    [state_only] skips the table drops and [drop_all] supersedes the list
    of resources. *)
Definition toy_drop_resources (schema : toy_schema) (state : toy_state)
    (resources state_paths : list string) (drop_all state_only : bool)
    : toy_schema * toy_state * DropInfo * list string :=
  let selected r := drop_all || elem r resources in
  let dropped :=
    if state_only then []
    else map fst (List.filter (fun t => selected (snd t)) (ts_tables schema)) in
  let new_schema :=
    if truthy_list dropped
    then {| ts_name := ts_name schema;
            ts_version := ts_version schema + 1;
            ts_tables := List.filter (fun t => negb (elem (fst t) dropped))
                           (ts_tables schema) |}
    else schema in
  let new_state :=
    {| st_resources := List.filter (fun r => negb (selected r)) (st_resources state);
       st_keys := List.filter (fun k => negb (elem k state_paths)) (st_keys state);
       st_extract := st_extract state |} in
  (new_schema, new_state,
   {| info_tables := dropped;
      info_state_paths := List.filter (fun k => elem k state_paths) (st_keys state);
      info_resource_states := List.filter selected (st_resources state) |},
   dropped).

Definition with_state (f : toy_state -> toy_state) (p : toy_pipeline)
    : toy_pipeline :=
  {| tp_name := tp_name p; tp_dir := tp_dir p; tp_default := tp_default p;
     tp_schemas := tp_schemas p; tp_state := f (tp_state p);
     tp_packages := tp_packages p; tp_synced := tp_synced p;
     tp_load_raises := tp_load_raises p |}.

Definition with_packages (packages : list string) (p : toy_pipeline)
    : toy_pipeline :=
  {| tp_name := tp_name p; tp_dir := tp_dir p; tp_default := tp_default p;
     tp_schemas := tp_schemas p; tp_state := tp_state p;
     tp_packages := packages; tp_synced := tp_synced p;
     tp_load_raises := tp_load_raises p |}.

Definition with_schema (s : toy_schema) (p : toy_pipeline) : toy_pipeline :=
  {| tp_name := tp_name p; tp_dir := tp_dir p; tp_default := tp_default p;
     tp_schemas := <[ts_name s := s]> (tp_schemas p); tp_state := tp_state p;
     tp_packages := tp_packages p; tp_synced := tp_synced p;
     tp_load_raises := tp_load_raises p |}.

Definition synced (p : toy_pipeline) : toy_pipeline :=
  {| tp_name := tp_name p; tp_dir := tp_dir p; tp_default := tp_default p;
     tp_schemas := tp_schemas p; tp_state := tp_state p;
     tp_packages := tp_packages p; tp_synced := S (tp_synced p);
     tp_load_raises := tp_load_raises p |}.

Definition mark (s : toy_state) : toy_state :=
  {| st_resources := st_resources s; st_keys := st_keys s; st_extract := true |}.

#[local] Instance toy : PipelineOps := {|
  Schema := toy_schema;
  State := toy_state;
  Pipeline := toy_pipeline;
  pipeline_name := tp_name;
  pipelines_dir := tp_dir;
  default_schema_name := tp_default;
  schemas_get := fun p key => tp_schemas p !! key;
  state := tp_state;
  has_pending_data := fun p => truthy_list (tp_packages p);
  sync_destination := fun p => (None, synced p);
  _save_and_extract_state_and_schema := fun new_state schema _ p =>
    (None, with_packages ("state" :: tp_packages p)
             (with_schema schema (with_state (fun _ => new_state) p)));
  normalize := fun p => (None, p);
  load := fun _ p =>
    match tp_load_raises p with
    | Some ex => (Some ex, p)
    | None => (None, with_packages [] p)
    end;
  drop_pending_packages := with_packages [];
  managed_state := with_state;
  schemas_save_schema := with_schema;
  schema_name_of := ts_name;
  _bump_version := fun s =>
    {| ts_name := ts_name s; ts_version := ts_version s + 1;
       ts_tables := ts_tables s |};
  force_state_extract := mark;
  drop_resources := toy_drop_resources
|}.


Definition shop : toy_schema := {|
  ts_name := "shop";
  ts_version := 3;
  ts_tables := [("users", "users"); ("orders", "orders")]
|}.

Definition demo_pipeline (load_raises : option BaseException) : toy_pipeline := {|
  tp_name := "demo";
  tp_dir := "/var/dlt/pipelines";
  tp_default := Some "shop";
  tp_schemas := {["shop" := shop]};
  tp_state := {| st_resources := ["users"; "orders"]; st_keys := ["cursor"];
                 st_extract := false |};
  tp_packages := [];
  tp_synced := 0;
  tp_load_raises := load_raises
|}.

End ToyPipeline.

(** ** What is observed of a run of the client *)

Module QdrantSpec.
Import Qdrant MemStore.

Section Observations.
Context `{Externals}.

(** What the server answers to [r] in the world [w], and the world after
    the call. *)
Definition answer (w : world) (r : request) : reply :=
  fst (db_client (db w) r).

Definition after (w : world) (r : request) : world :=
  {| db := snd (db_client (db w) r);
     log := log w ++ [(r, answer w r)];
     clock := clock w;
     entropy := entropy w |}.

Definition raises (a : reply) : Prop := exists e, a = RRaise e.

(** The answers to [get_collection] that [_collection_exists] reads as
    "there is no such collection". *)
Definition says_missing (a : reply) : Prop :=
  (exists msg, a = RRaise (ValueError msg) /\ contains "not found" msg = true)
  \/ a = RRaise (UnexpectedResponse 404).

(** The last call of the run was answered by the exception [e]. *)
Definition server_raised (w : world) (e : exn) : Prop :=
  exists before r, log w = before ++ [(r, RRaise e)].

(** The world after a reading of the clock. *)
Definition tick (w : world) : world :=
  {| db := db w; log := log w; clock := S (clock w); entropy := entropy w |}.

Definition more_entropy (w : world) (n : nat) : world :=
  {| db := db w; log := log w; clock := clock w; entropy := entropy w + n |}.

(** The ids a file of [n] lines gets from the random source, starting at
    the [k]-th draw. *)
Definition draws (k n : nat) : list point_id :=
  map (fun i => UuidId (uuid4 i)) (seq k n).

(** The request [get_stored_schema_by_hash] sends. *)
Definition by_hash (self : QdrantClient) (schema_hash : string) : request :=
  scroll (_make_qualified_collection_name self (version_table_name (schema self)))
    AllFields (normalize_identifier "version_hash") (VStr schema_hash) 1 None.

(** The request [get_stored_schema] sends. *)
Definition by_name (self : QdrantClient) : request :=
  scroll (_make_qualified_collection_name self (version_table_name (schema self)))
    AllFields (normalize_identifier "schema_name") (VStr (name (schema self))) 1 None.

(** The record an answer holds: the payload of the first point of a page,
    when [StorageSchemaInfo] accepts it. *)
Definition record_in (a : reply) : option StorageSchemaInfo :=
  match a with
  | RPage (r :: _) _ =>
      if StorageSchemaInfo_accepts (p_payload r)
      then Some {| schema_info_fields := p_payload r |}
      else None
  | _ => None
  end.

(** The calls that bring the collections of [tables] into being: for each
    table, in order, one [get_collection] on its qualified name, followed
    by one [create_collection] on that name when the answer said the
    collection is missing. *)
Inductive ensured (self : QdrantClient) : list string -> list event -> Prop :=
| ensured_nil : ensured self [] []
| ensured_present table rest a evs :
    ~ raises a ->
    ensured self rest evs ->
    ensured self (table :: rest)
      ((get_collection (_make_qualified_collection_name self table), a) :: evs)
| ensured_created table rest a b evs :
    says_missing a ->
    ~ raises b ->
    ensured self rest evs ->
    ensured self (table :: rest)
      ((get_collection (_make_qualified_collection_name self table), a)
       :: (create_collection (_make_qualified_collection_name self table), b)
       :: evs).

(** The payload of the version record written at the reading [now] of the
    clock. *)
Definition version_record (self : QdrantClient) (now : string) : dict :=
  dict_of_zip (version_collection_properties self)
    [VInt (version (schema self)); VInt (ENGINE_VERSION (schema self)); VStr now;
     VStr (name (schema self)); VStr (stored_version_hash (schema self));
     VStr (to_dict_json (schema self))].

(** The calls of the loop of [initialize_storage] over [tables]: for each
    table one [get_collection] on the name its qualified name gets when it
    is qualified once more, and, when the answer said that collection is
    missing, [delete_collection] and [create_collection] on the qualified
    name. *)
Inductive truncation (self : QdrantClient) : list string -> list event -> Prop :=
| truncation_nil : truncation self [] []
| truncation_skipped table rest a evs :
    ~ raises a ->
    truncation self rest evs ->
    truncation self (table :: rest)
      ((get_collection
          (_make_qualified_collection_name self
             (_make_qualified_collection_name self table)), a) :: evs)
| truncation_recreated table rest a b c evs :
    says_missing a ->
    ~ raises b ->
    ~ raises c ->
    truncation self rest evs ->
    truncation self (table :: rest)
      ((get_collection
          (_make_qualified_collection_name self
             (_make_qualified_collection_name self table)), a)
       :: (delete_collection (_make_qualified_collection_name self table), b)
       :: (create_collection (_make_qualified_collection_name self table), c)
       :: evs).

(** The request [get_stored_state] sends for a page, and the one it sends
    to count the loads of a load id. *)
Definition state_page (self : QdrantClient) (pipeline_name : string)
    (offset : option point_id) : request :=
  scroll (_make_qualified_collection_name self (state_table_name (schema self)))
    (Fields (pipeline_state_properties self))
    (normalize_identifier "pipeline_name") (VStr pipeline_name) 100 offset.

Definition loads_of (self : QdrantClient) (load_id : value) : request :=
  count (_make_qualified_collection_name self (loads_table_name (schema self)))
    (normalize_identifier "load_id") load_id.

End Observations.

(** A server that refuses every call with the same exception. *)
Definition refusing (e : exn) : Externals := {|
  St := unit;
  db_client := fun _ _ => (RRaise e, tt);
  normalize_identifier := fun s => s;
  precise_time := fun _ => 0%Q;
  pendulum_now := fun _ => "";
  uuid5 := fun _ name => name;
  uuid4 := fun _ => "";
  get_columns_names_with_prop := columns_with_prop;
  VECTORIZE_HINT := "x-qdrant-embed";
  vector_field_name := "";
  StateInfo_accepts := fun _ => true;
  StorageSchemaInfo_accepts := fun _ => true;
  JobClientBase_update_stored_schema := fun _ _ => Ok tt
|}.

Definition nowhere (e : exn) : @world (refusing e) :=
  @Build_world (refusing e) tt [] 0 0.

(** A state record of the pipeline [demo] written by the load [load_id]. *)
Definition state_record (n : Z) (load_id : string) : Point :=
  {| p_id := IntId n;
     p_payload := {[ "pipeline_name" := VStr "demo";
                     "_dlt_load_id" := VStr load_id;
                     "state" := VStr "eJw=" ]} |}.

(** A completion record of the load [load_id]. *)
Definition load_record (n : Z) (load_id : string) : Point :=
  {| p_id := IntId n;
     p_payload := {[ "load_id" := VStr load_id; "status" := VInt 0 ]} |}.

(** One state record, written by a load that never completed. *)
Definition orphaned : store :=
  {[ "_dlt_pipeline_state" := [state_record 7 "1700000001.5"];
     "_dlt_loads" := [] ]}.

(** Two state records; only the load of the second one completed. *)
Definition resumed : store :=
  {[ "_dlt_pipeline_state" := [state_record 7 "1700000002.5";
                               state_record 9 "1700000001.5"];
     "_dlt_loads" := [load_record 4 "1700000001.5"] ]}.

(** A dataset [ds] whose version collection holds the record of the
    schema with hash [h3]. *)
Definition versioned : store :=
  {[ "ds" := [];
     "ds__dlt_version" :=
       [{| p_id := IntId 18445044073709551616;
           p_payload := {[ "version_hash" := VStr "h3";
                           "schema_name" := VStr "shop" ]} |}] ]}.

(** No dataset name: the sentinel and a collection of users with one
    point. *)
Definition plain : store :=
  {[ "DltSentinelCollection" := [];
     "users" := [{| p_id := UuidId "uuid5(users1)";
                    p_payload := {[ "id" := VInt 1; "name" := VStr "a" ]} |}] ]}.

(** The table of users: [id] is the primary key, [email] is unique. *)
Definition users_table (disposition : string) : TTableSchema := {|
  table_name := "users";
  write_disposition := Some disposition;
  columns :=
    [{| column_name := "id"; column_props := {[ "primary_key" := true ]} |};
     {| column_name := "email"; column_props := {[ "unique" := true ]} |};
     {| column_name := "name"; column_props := ∅ |}]
|}.

(** A dataset [ds] with its sentinel and a collection of users that holds
    one point. *)
Definition populated : store :=
  {[ "ds" := [];
     "ds_users" := [{| p_id := UuidId "uuid5(ds_users1)";
                       p_payload := {[ "id" := VInt 1; "name" := VStr "a" ]} |}] ]}.

End QdrantSpec.

(** ** What is observed of a drop *)

Module HelpersSpec.
Import Helpers.

Section Plans.
Context `{PipelineOps}.

(** [schema_name or pipeline.default_schema_name] *)
Definition schema_key (pipeline : Pipeline) (schema_name : option string) : string :=
  if Qdrant.truthy_opt schema_name
  then default "" schema_name
  else default "" (default_schema_name pipeline).

(** What the planner gives when nothing is asked for: no table to drop and
    an empty summary. *)
Definition plans_nothing_for_nothing : Prop :=
  forall schema state,
    let '(_, _, drop_info, dropped_tables) :=
      drop_resources schema state [] [] false false in
    dropped_tables = []
    /\ info_tables drop_info = []
    /\ info_state_paths drop_info = []
    /\ info_resource_states drop_info = [].





End Plans.
End HelpersSpec.

(** ** More of the client and of the helpers *)

Module QdrantMore.
Import Qdrant MemStore QdrantSpec.

(** [db_client.get_collections()]: the names of the collections of the
    server, or the exception the call raises.  The call is not one of
    [Qdrant.request], so it does not appear in the log. *)
Class Listing `{Externals} := {
  get_collections : St -> res (list string) * St
}.

Section MoreClient.
Context `{Listing}.

(** [[collection.name for collection in
      self.db_client.get_collections().collections]] *)
Definition list_collections : M (list string) :=
  fun w => let '(r, s) := get_collections (db w) in
           (r, {| db := s; log := log w; clock := clock w; entropy := entropy w |}).

(** The two loops of [drop_storage]. *)
Definition delete_with_prefix (prefix : string) (collection_name : string) : M unit :=
  if String.prefix prefix collection_name
  then call_ (delete_collection collection_name)
  else ret tt.

Definition delete_if_listed (collection_name_list : list string)
    (collection_name : string) : M unit :=
  if bool_decide (collection_name ∈ collection_name_list)
  then call_ (delete_collection collection_name)
  else ret tt.

Definition drop_storage (self : QdrantClient) : M unit :=
  bind list_collections (fun collection_name_list =>
  bind (if truthy_opt (dataset_name self)
        then
          let prefix := (default "" (dataset_name self)
                         ++ dataset_separator self)%string in
          for_each collection_name_list (delete_with_prefix prefix)
        else
          for_each (tables (schema self)) (delete_if_listed collection_name_list))
       (fun _ => _delete_sentinel_collection self)).

(** [start_file_load]: the file is given by its lines; [load_id] is not
    used. *)
Definition start_file_load (self : QdrantClient) (table : TTableSchema)
    (lines : list dict) (load_id : string) : M LoadQdrantJob :=
  LoadQdrantJob_init table lines
    (_make_qualified_collection_name self (table_name table)).

(** The events a run from [w] to [w'] added to the log, and the requests
    among them. *)
Definition news (w w' : world) : list event := drop (length (log w)) (log w').

Definition sent (w w' : world) : list request := map fst (news w w').

(** The collections [drop_storage] sets out to delete, in this order, when
    the server lists [collection_name_list]. *)
Definition drop_targets (self : QdrantClient) (collection_name_list : list string)
    : list string :=
  (if truthy_opt (dataset_name self)
   then List.filter
          (String.prefix (default "" (dataset_name self) ++ dataset_separator self))
          collection_name_list
   else List.filter (fun c => bool_decide (c ∈ collection_name_list))
          (tables (schema self)))
  ++ [sentinel_collection self].

(** The calls that delete the collections [names], in order, up to the
    first one the server refuses, and what the loop gives: nothing, or the
    exception of the call that was refused. *)
Inductive deleted : list string -> list event -> res unit -> Prop :=
| deleted_nil : deleted [] [] (Ok tt)
| deleted_next c rest a evs r :
    ~ raises a ->
    deleted rest evs r ->
    deleted (c :: rest) ((delete_collection c, a) :: evs) r
| deleted_refused c rest e :
    deleted (c :: rest) [(delete_collection c, RRaise e)] (Raise e).

End MoreClient.

(** The in-memory server lists the collections it holds. *)
#[local] Instance mem_listing : @Listing mem :=
  @Build_Listing mem (fun s : store => (Ok (map fst (map_to_list s)), s)).

(** Two datasets on one server: [ds] and [ds_2]. *)
Definition two_datasets : store :=
  {[ "ds" := []; "ds_users" := []; "ds_2" := []; "ds_2_users" := [] ]}.

End QdrantMore.

Module HelpersMore.
Import Helpers.

(** What [refresh_source] works on: the source with its name, its schema
    and the resources that were extracted, the pipeline state as a
    dictionary, and the planner, here with its [sources] argument.  None of
    them is defined in [helpers.py]. *)
Class RefreshOps := {
  RSchema : Type;
  RValue : Type;
  (** [drop_resources(schema, state, resources, state_paths, drop_all,
      sources=...)]: the new schema, the new state and the dropped tables;
      [state_paths] is the list of the paths, so a single path given as
      a string is the list of that one path *)
  plan_drop :
    RSchema -> gmap string RValue -> list string -> list string -> bool -> string ->
    RSchema * gmap string RValue * list string
}.

Section Refresh.
Context `{RefreshOps}.

Record DltSource := {
  source_name : string;
  source_schema : RSchema;
  resources_extracted : list string
}.

(** [refresh_source]: the load package state it returns, the source and
    the pipeline state as it leaves them. *)
Definition refresh_source (first_run : bool) (pipeline_state : gmap string RValue)
    (source : DltSource) (refresh : string)
    : gmap string (list string) * DltSource * gmap string RValue :=
  if first_run then (∅, source, pipeline_state)
  else
    let is_drop_sources := bool_decide (refresh = "drop_sources") in
    let _resources_to_drop :=
      if negb is_drop_sources then resources_extracted source else [] in
    let '(new_schema, new_state, dropped_tables) :=
      plan_drop (source_schema source) pipeline_state _resources_to_drop
        (if is_drop_sources then ["*"] else []) is_drop_sources
        (source_name source) in
    let load_package_state : gmap string (list string) :=
      if truthy_list dropped_tables
      then {[ (if negb (bool_decide (refresh = "drop_data"))
               then "dropped_tables" else "truncated_tables") := dropped_tables ]}
      else ∅ in
    let source' :=
      if negb (bool_decide (refresh = "drop_data"))
      then {| source_name := source_name source;
              source_schema := new_schema;
              resources_extracted := resources_extracted source |}
      else source in
    let pipeline_state' :=
      match new_state !! "sources" with
      | Some sources => <["sources" := sources]> pipeline_state
      | None => pipeline_state
      end in
    (load_package_state, source', pipeline_state').

End Refresh.
End HelpersMore.

(** ** Properties of the Qdrant client *)

Module QdrantFacts.
Import Qdrant MemStore QdrantSpec.

(** *** Point ids of the loads and version records *)







(** Two readings of the clock inside one microsecond give one id. *)
Example same_microsecond :
  point_id_at (3 # 10000000) = point_id_at (7 # 10000000).
Proof. reflexivity. Qed.

(** [int] truncates towards zero, so below the epoch the order breaks. *)
Example before_the_epoch :
  point_id_at (-9 # 10000000) = point_id_at (5 # 10000000).
Proof. reflexivity. Qed.





(** *** Identity of the records of a load job *)

Section Identity.
Context `{Externals}.

Lemma str_items_ext (d1 d2 : dict) (keys : list string) :
  (forall key, key ∈ keys -> d1 !! key = d2 !! key) ->
  str_items d1 keys = str_items d2 keys.
Proof.
  induction keys as [|key keys IH]; intros Heq; [reflexivity|].
  cbn. unfold getitem. rewrite (Heq key) by apply list_elem_of_here.
  rewrite IH; [reflexivity|]. intros k Hk. apply Heq. by apply list_elem_of_further.
Qed.

Lemma str_items_values (d : dict) (keys : list string) (values : list value) :
  Forall2 (fun key v => d !! key = Some v) keys values ->
  str_items d keys = Ok (map str values).
Proof.
  induction 1 as [|key v keys values Hkey _ IH]; [reflexivity|].
  cbn. unfold getitem. by rewrite Hkey, IH.
Qed.

Lemma put_overwrites (p q : Point) (points : list Point) :
  p_id p = p_id q -> put p (put q points) = put p points.
Proof.
  intros Hid. induction points as [|r rest IH]; cbn.
  - by rewrite decide_True.
  - rewrite <- !Hid.
    destruct (decide (p_id p = p_id r)) as [Heq|Hne]; cbn.
    + by rewrite decide_True.
    + destruct (id_ltb (p_id p) (p_id r)) eqn:Hlt; cbn.
      * by rewrite decide_True.
      * rewrite decide_False by assumption. by rewrite Hlt, IH.
Qed.

(** C5.  [_generate_uuid] is the UUID v5, in the DNS namespace, of the
    collection name followed by the values of the identifier columns,
    printed and joined by an underscore.  Two records that agree on the
    identifier columns get the same id in the same collection; with a
    non-empty list of identifiers the constructor uses this id and reads
    neither the clock nor the random source nor the server; and a point
    sent again under the id of a stored point replaces it. *)
Theorem generate_uuid_deterministic (d1 d2 : dict) (ids : list string)
    (collection_name : string) :
  (forall key, key ∈ ids -> d1 !! key = d2 !! key) ->
  _generate_uuid d1 ids collection_name = _generate_uuid d2 ids collection_name
  /\ (forall values,
        Forall2 (fun key v => d1 !! key = Some v) ids values ->
        _generate_uuid d1 ids collection_name
        = Ok (uuid5 NAMESPACE_DNS
                (collection_name ++ join "_" (map str values))%string))
  /\ (ids <> [] ->
      forall w, point_id_for ids collection_name d1 w
                = point_id_for ids collection_name d2 w
                /\ snd (point_id_for ids collection_name d1 w) = w)
  /\ (forall (p q : Point) (points : list Point),
        p_id p = p_id q -> put p (put q points) = put p points).
Proof.
  intros Hagree.
  assert (Hsame : _generate_uuid d1 ids collection_name
                  = _generate_uuid d2 ids collection_name).
  { unfold _generate_uuid, join_items. by rewrite (str_items_ext d1 d2 ids Hagree). }
  split; [exact Hsame|]. split; [|split].
  - intros values Hvalues. unfold _generate_uuid, join_items.
    by rewrite (str_items_values _ _ _ Hvalues).
  - intros Hne w. unfold point_id_for.
    destruct ids as [|k ks]; [contradiction|]. cbn [truthy_list].
    unfold bind, lift, ret. rewrite <- Hsame.
    split; [reflexivity|]. by destruct (_generate_uuid d1 (k :: ks) collection_name).
  - apply put_overwrites.
Qed.

End Identity.

(** *** The identifier columns of a load job *)

Section Identifiers.
Context `{Externals}.

Lemma more_entropy_0 (w : world) : more_entropy w 0 = w.
Proof. destruct w. unfold more_entropy. cbn. f_equal. lia. Qed.

Lemma read_lines_random (ef : list string) (c : string) (lines : list dict) :
  forall w docs payloads ids w',
    read_lines ef [] c lines w = (Ok (docs, payloads, ids), w') ->
    payloads = lines /\ ids = draws (entropy w) (length lines)
    /\ w' = more_entropy w (length lines).
Proof.
  induction lines as [|data rest IH]; intros w docs payloads ids w' Hrun.
  - cbn in Hrun. injection Hrun as <- <- <- <-.
    by rewrite more_entropy_0.
  - cbn [read_lines point_id_for truthy_list] in Hrun.
    unfold bind at 1 in Hrun. unfold draw_uuid4 at 1 in Hrun.
    set (w1 := {| db := db w; log := log w; clock := clock w;
                  entropy := S (entropy w) |}) in Hrun.
    unfold bind at 1 in Hrun.
    assert (Hdoc : exists r,
      (if (0 <? length ef)%nat
       then bind (lift (_get_embedding_doc ef data)) (fun d => ret [d])
       else ret []) w1 = (r, w1)).
    { destruct (0 <? length ef)%nat; unfold bind, lift, ret; [|by eexists].
      destruct (_get_embedding_doc ef data); by eexists. }
    destruct Hdoc as [r Hdoc]. rewrite Hdoc in Hrun.
    destruct r as [doc|e]; [|discriminate].
    unfold bind at 1 in Hrun.
    destruct (read_lines ef [] c rest w1) as [[[[docs1 payloads1] ids1]|e] w2] eqn:Hrest;
      [|discriminate].
    unfold ret in Hrun. injection Hrun as <- <- <- <-.
    destruct (IH _ _ _ _ _ Hrest) as (-> & -> & ->).
    split; [reflexivity|]. split.
    + reflexivity.
    + unfold more_entropy, w1. cbn. f_equal. lia.
Qed.

(** C4.  The identifier columns of a table are its primary-key columns
    when the write disposition is "merge" and there are any, and the
    columns flagged "unique" otherwise.  When the list is empty every
    record gets the next draw of [uuid4], whatever the record holds, and a
    job that is constructed uploads the lines of the file under
    consecutive draws; when it is not empty the id is the one
    [_generate_uuid] computes. *)
Theorem unique_identifiers_choice (t : TTableSchema) :
  let primary_keys := get_columns_names_with_prop t "primary_key" in
  let unique := get_columns_names_with_prop t "unique" in
  let ids := _list_unique_identifiers t in
  (write_disposition t = Some "merge" -> primary_keys <> [] -> ids = primary_keys)
  /\ (write_disposition t <> Some "merge" \/ primary_keys = [] -> ids = unique)
  /\ (ids = [] ->
      forall c data w,
        point_id_for ids c data w
        = (Ok (UuidId (uuid4 (entropy w))), more_entropy w 1))
  /\ (ids = [] ->
      forall lines c w job w',
        LoadQdrantJob_init t lines c w = (Ok job, w') ->
        exists vectors answer,
          log w' = log w ++ [(upload_collection c
                                (draws (entropy w) (length lines))
                                lines vectors, answer)]
          /\ entropy w' = (entropy w + length lines)%nat)
  /\ (ids <> [] ->
      forall c data w,
        point_id_for ids c data w
        = (match _generate_uuid data ids c with
           | Ok s => Ok (UuidId s)
           | Raise e => Raise e
           end, w)).
Proof.
  intros primary_keys unique ids. subst ids. unfold _list_unique_identifiers.
  fold primary_keys. fold unique.
  split; [|split; [|split; [|split]]].
  - intros Hmerge Hpk. rewrite decide_True by assumption.
    destruct primary_keys; [contradiction|reflexivity].
  - intros [Hnot| ->]; [by rewrite decide_False|].
    by destruct (decide _).
  - intros -> c data w. unfold point_id_for, draw_uuid4, more_entropy. cbn.
    do 2 f_equal. lia.
  - intros Hids lines c w job w' Hrun. unfold LoadQdrantJob_init in Hrun.
    unfold _list_unique_identifiers in Hrun. fold primary_keys unique in Hrun.
    rewrite Hids in Hrun. unfold bind at 1 in Hrun.
    destruct (read_lines _ [] c lines w) as [[[[docs payloads] idl]|e] w1] eqn:Hread;
      [|discriminate].
    destruct (read_lines_random _ _ _ _ _ _ _ _ Hread) as (-> & -> & ->).
    unfold _upload_data, call_, bind, call in Hrun. cbn in Hrun.
    destruct (db_client (db w) _) as [a s] eqn:Hcall. cbn in Hrun.
    eexists _, a.
    destruct a; cbn in Hrun; try discriminate;
      injection Hrun as <- <-; cbn; (split; [reflexivity|lia]).
  - intros Hne c data w. unfold point_id_for.
    destruct (if decide _ then _ else _) as [|k ks]; [contradiction|].
    cbn [truthy_list]. unfold bind, lift, ret.
    by destruct (_generate_uuid data (k :: ks) c).
Qed.

End Identifiers.

(** *** Calls and their answers *)

Section Calls.
Context `{Externals}.

Lemma call_eq (r : request) (w : world) : call r w = (Ok (answer w r), after w r).
Proof. unfold call, after, answer. by destruct (db_client (db w) r). Qed.

Lemma call_v_eq (r : request) (w : world) :
  call_v r w = (match answer w r with RRaise e => Raise e | a => Ok a end,
                after w r).
Proof.
  unfold call_v, bind. rewrite call_eq. by destruct (answer w r).
Qed.

Lemma call__eq (r : request) (w : world) :
  call_ r w = (match answer w r with RRaise e => Raise e | _ => Ok tt end,
               after w r).
Proof.
  unfold call_, bind. rewrite call_eq. by destruct (answer w r).
Qed.

Lemma says_missing_raises (a : reply) : says_missing a -> raises a.
Proof. intros [(msg & -> & _)| ->]; by eexists. Qed.

End Calls.

(** *** Looking up the stored schema *)

Section SchemaLookup.
Context `{Externals}.

Lemma get_stored_schema_by_hash_eq (self : QdrantClient) (h : string) (w : world) :
  get_stored_schema_by_hash self h w
  = (Ok (record_in (answer w (by_hash self h))), after w (by_hash self h)).
Proof.
  unfold get_stored_schema_by_hash, try_except, bind. fold (by_hash self h).
  rewrite call_v_eq. unfold record_in, lift, first_payload, make_StorageSchemaInfo, ret.
  destruct (answer w (by_hash self h)) as [| |[|r rs] o| |e]; try reflexivity.
  by destruct (StorageSchemaInfo_accepts (p_payload r)).
Qed.

Lemma get_stored_schema_eq (self : QdrantClient) (w : world) :
  get_stored_schema self w
  = (Ok (record_in (answer w (by_name self))), after w (by_name self)).
Proof.
  unfold get_stored_schema, try_except, bind. fold (by_name self).
  rewrite call_v_eq. unfold record_in, lift, first_payload, make_StorageSchemaInfo, ret.
  destruct (answer w (by_name self)) as [| |[|r rs] o| |e]; try reflexivity.
  by destruct (StorageSchemaInfo_accepts (p_payload r)).
Qed.

(** C6, as the code has it.  Neither lookup ever raises.  Whatever
    exception the server raises -- a missing collection, but also a
    refused connection or a failed authentication -- the result is [None];
    so it is for an empty page, for an answer that is not a page and for a
    record [StorageSchemaInfo] does not accept; a page whose first record
    is accepted gives that record. *)
Theorem schema_lookup_swallows_every_exception (self : QdrantClient)
    (schema_hash : string) (w : world) :
  let a := answer w (by_hash self schema_hash) in
  let b := answer w (by_name self) in
  get_stored_schema_by_hash self schema_hash w
  = (Ok (record_in a), after w (by_hash self schema_hash))
  /\ get_stored_schema self w = (Ok (record_in b), after w (by_name self))
  /\ (forall e, record_in (RRaise e) = None)
  /\ (forall o, record_in (RPage [] o) = None)
  /\ record_in RNone = None /\ record_in RInfo = None
  /\ (forall n, record_in (RCount n) = None)
  /\ (forall r rs o,
        record_in (RPage (r :: rs) o)
        = if StorageSchemaInfo_accepts (p_payload r)
          then Some {| schema_info_fields := p_payload r |}
          else None).
Proof.
  cbn zeta. split; [apply get_stored_schema_by_hash_eq|].
  split; [apply get_stored_schema_eq|]. repeat split.
Qed.

End SchemaLookup.

(** C6 as stated does not hold: a failed authentication (status 401)
    and a refused connection are turned into [None] like any other
    exception, they do not reach the caller. *)
Lemma schema_lookup_hides_deeper_errors :
  let auth := UnexpectedResponse 401 in
  let network := OtherException "ResponseHandlingException" in
  fst (@get_stored_schema_by_hash (refusing auth) (demo_client None) "h3"
         (nowhere auth)) = Ok None
  /\ fst (@get_stored_schema_by_hash (refusing auth) (demo_client None) "h3"
            (nowhere auth)) <> Raise auth
  /\ fst (@get_stored_schema (refusing network) (demo_client None)
            (nowhere network)) = Ok None
  /\ fst (@get_stored_schema (refusing network) (demo_client None)
            (nowhere network)) <> Raise network.
Proof. cbn. repeat split; discriminate. Qed.

(** *** Checking for a collection *)

Section Existence.
Context `{Externals}.

Lemma log_after (w : world) (r : request) :
  log (after w r) = log w ++ [(r, answer w r)].
Proof. reflexivity. Qed.

Lemma server_raised_after (w : world) (r : request) (e : exn) :
  answer w r = RRaise e -> server_raised (after w r) e.
Proof. intros Ha. exists (log w), r. by rewrite log_after, Ha. Qed.

(** [_collection_exists] by cases on the answer of the server. *)
Lemma collection_exists_cases (self : QdrantClient) (table : string)
    (qualify : bool) (w : world) :
  let g := get_collection (if qualify
                           then _make_qualified_collection_name self table
                           else table) in
  (~ raises (answer w g)
   /\ _collection_exists self table qualify w = (Ok true, after w g))
  \/ (says_missing (answer w g)
      /\ _collection_exists self table qualify w = (Ok false, after w g))
  \/ (exists e, answer w g = RRaise e
                /\ _collection_exists self table qualify w = (Raise e, after w g)).
Proof.
  intros g. unfold _collection_exists, bind. fold g. rewrite call_eq.
  destruct (answer w g) as [| | | |[msg|code| | | |]] eqn:Ha;
    try (left; split; [intros [e [=]]|reflexivity]);
    try (right; right; eexists; split; reflexivity).
  - destruct (contains "not found" msg) eqn:Hmsg.
    + right; left. split; [left; by exists msg|reflexivity].
    + right; right. eexists; split; reflexivity.
  - destruct (code =? 404)%Z eqn:Hcode.
    + apply Z.eqb_eq in Hcode as ->. right; left. split; [by right|reflexivity].
    + right; right. eexists; split; reflexivity.
Qed.

End Existence.

(** *** initialize_storage *)

Section Truncate.
Context `{Externals}.

Lemma truncate_one_cases (self : QdrantClient) (table : string) (w : world) :
  let q := _make_qualified_collection_name self in
  let g := get_collection (q (q table)) in
  let d := delete_collection (q table) in
  let c := create_collection (q table) in
  (~ raises (answer w g) /\ truncate_one self table w = (Ok tt, after w g))
  \/ (says_missing (answer w g)
      /\ ~ raises (answer (after w g) d)
      /\ ~ raises (answer (after (after w g) d) c)
      /\ truncate_one self table w = (Ok tt, after (after (after w g) d) c))
  \/ (exists e w', truncate_one self table w = (Raise e, w')
                   /\ server_raised w' e).
Proof.
  intros q g d c. unfold truncate_one, bind. fold q.
  destruct (collection_exists_cases self (q table) true w)
    as [[Hok ->]|[[Hmiss ->]|(e & Ha & ->)]]; fold q g.
  - by left.
  - unfold _create_collection. rewrite !call__eq. fold d c.
    destruct (answer (after w g) d) as [| | | |e] eqn:Hd;
      try (destruct (answer (after (after w g) d) c) as [| | | |e'] eqn:Hc;
           [right; left; repeat split; try (intros [? [=]]); try assumption;
            try (rewrite Hd; intros [? [=]])..
           |right; right; exists e', (after (after (after w g) d) c);
            split; [reflexivity|by apply server_raised_after]]).
    right; right. exists e, (after (after w g) d).
    split; [reflexivity|by apply server_raised_after].
  - right; right. exists e, (after w g). split; [reflexivity|].
    by apply server_raised_after.
Qed.

Lemma truncate_all (self : QdrantClient) (tables : list string) :
  forall w r w',
    for_each tables (truncate_one self) w = (r, w') ->
    (r = Ok tt /\ exists evs, log w' = log w ++ evs /\ truncation self tables evs)
    \/ (exists e, r = Raise e /\ server_raised w' e).
Proof.
  induction tables as [|table rest IH]; intros w r w' Hrun.
  - cbn in Hrun. injection Hrun as <- <-. left. split; [reflexivity|].
    exists []. split; [by rewrite app_nil_r|constructor].
  - cbn [for_each] in Hrun. unfold bind at 1 in Hrun.
    destruct (truncate_one_cases self table w)
      as [[Hok Heq]|[(Hmiss & Hd & Hc & Heq)|(e & w1 & Heq & Hraised)]];
      rewrite Heq in Hrun.
    + destruct (IH _ _ _ Hrun) as [[-> (evs & Hlog & Htr)]|Hfail]; [|by right].
      left. split; [reflexivity|]. eexists. split.
      * rewrite Hlog, log_after, <- app_assoc. reflexivity.
      * by apply truncation_skipped.
    + destruct (IH _ _ _ Hrun) as [[-> (evs & Hlog & Htr)]|Hfail]; [|by right].
      left. split; [reflexivity|]. eexists. split.
      * rewrite Hlog, !log_after, <- !app_assoc. reflexivity.
      * by apply truncation_recreated.
    + injection Hrun as <- <-. right. by exists e.
Qed.

Lemma qualified_without_dataset (self : QdrantClient) (table : string) :
  truthy_opt (dataset_name self) = false ->
  _make_qualified_collection_name self table = table.
Proof. intros Hno. unfold _make_qualified_collection_name. by rewrite Hno. Qed.

(** With the storage initialized and a non-empty list of tables to
    truncate, [initialize_storage] asks, for each table
    in turn, whether the collection exists whose name is the qualified
    name of the table qualified once more.  When the server says it
    exists, nothing else is done for the table; when it says it is
    missing, [delete_collection] and then [create_collection] are called
    on the qualified name.  The run ends with [Ok] after these calls, or
    with the exception a call of the server raised.  The name that is
    checked is the qualified name itself exactly when qualifying changes
    nothing, which is so when no dataset name is set. *)
Theorem initialize_storage_truncation (self : QdrantClient)
    (tables : list string) (w : world) :
  let sentinel := get_collection (sentinel_collection self) in
  tables <> [] ->
  ~ raises (answer w sentinel) ->
  (forall r w',
     initialize_storage self (Some tables) w = (r, w') ->
     (r = Ok tt
      /\ exists evs, log w' = log w ++ (sentinel, answer w sentinel) :: evs
                     /\ truncation self tables evs)
     \/ (exists e, r = Raise e /\ server_raised w' e))
  /\ (truthy_opt (dataset_name self) = false ->
      forall table,
        _make_qualified_collection_name self
          (_make_qualified_collection_name self table)
        = _make_qualified_collection_name self table).
Proof.
  intros sentinel Hne Hinit. split.
  - intros r w' Hrun. unfold initialize_storage, bind, is_storage_initialized in Hrun.
    destruct (collection_exists_cases self (sentinel_collection self) false w)
      as [[_ Heq]|[[Hmiss _]|(e & Ha & _)]].
    + rewrite Heq in Hrun. cbn [negb default] in Hrun.
      destruct tables as [|t ts]; [contradiction|]. cbn [truthy_list] in Hrun.
      destruct (truncate_all self (t :: ts) _ _ _ Hrun)
        as [[-> (evs & Hlog & Htr)]|Hfail]; [|by right].
      left. split; [reflexivity|]. exists evs. split; [|exact Htr].
      rewrite Hlog, log_after, <- app_assoc. reflexivity.
    + exfalso. apply Hinit. by apply says_missing_raises.
    + exfalso. apply Hinit. by exists e.
  - intros Hno table. by rewrite !qualified_without_dataset.
Qed.

End Truncate.

(** *** update_stored_schema *)

Section SchemaUpdate.
Context `{Externals}.

Lemma ensure_collection_cases (self : QdrantClient) (table : string) (w : world) :
  let q := _make_qualified_collection_name self in
  let g := get_collection (q table) in
  let c := create_collection (q table) in
  (~ raises (answer w g) /\ ensure_collection self table w = (Ok tt, after w g))
  \/ (says_missing (answer w g)
      /\ ~ raises (answer (after w g) c)
      /\ ensure_collection self table w = (Ok tt, after (after w g) c))
  \/ (exists e w', ensure_collection self table w = (Raise e, w')
                   /\ server_raised w' e).
Proof.
  intros q g c. unfold ensure_collection, bind.
  destruct (collection_exists_cases self table true w)
    as [[Hok ->]|[[Hmiss ->]|(e & Ha & ->)]]; fold q g.
  - by left.
  - cbn [negb]. unfold _create_collection. rewrite call__eq. fold q c.
    destruct (answer (after w g) c) as [| | | |e] eqn:Hc;
      try (right; left; repeat split; [exact Hmiss|intros [? [=]]]).
    right; right. exists e, (after (after w g) c).
    split; [reflexivity|by apply server_raised_after].
  - right; right. exists e, (after w g). split; [reflexivity|].
    by apply server_raised_after.
Qed.

Lemma ensure_all (self : QdrantClient) (tables : list string) :
  forall w r w',
    for_each tables (ensure_collection self) w = (r, w') ->
    (r = Ok tt /\ clock w' = clock w
     /\ exists evs, log w' = log w ++ evs /\ ensured self tables evs)
    \/ (exists e, r = Raise e /\ server_raised w' e).
Proof.
  induction tables as [|table rest IH]; intros w r w' Hrun.
  - cbn in Hrun. injection Hrun as <- <-. left. repeat split.
    exists []. split; [by rewrite app_nil_r|constructor].
  - cbn [for_each] in Hrun. unfold bind at 1 in Hrun.
    destruct (ensure_collection_cases self table w)
      as [[Hok Heq]|[(Hmiss & Hc & Heq)|(e & w1 & Heq & Hraised)]];
      rewrite Heq in Hrun.
    + destruct (IH _ _ _ Hrun) as [(-> & Hclock & evs & Hlog & Htr)|Hfail]; [|by right].
      left. split; [reflexivity|]. split; [exact Hclock|]. eexists. split.
      * rewrite Hlog, log_after, <- app_assoc. reflexivity.
      * by apply ensured_present.
    + destruct (IH _ _ _ Hrun) as [(-> & Hclock & evs & Hlog & Htr)|Hfail]; [|by right].
      left. split; [reflexivity|]. split; [exact Hclock|]. eexists. split.
      * rewrite Hlog, !log_after, <- !app_assoc. reflexivity.
      * by apply ensured_created.
    + injection Hrun as <- <-. right. by exists e.
Qed.

Lemma update_schema_in_storage_cases (self : QdrantClient) (w : world) :
  let point := {| p_id := IntId (point_id_at (precise_time (S (clock w))));
                  p_payload := version_record self (pendulum_now (clock w)) |} in
  let u := upsert (_make_qualified_collection_name self
                     (version_table_name (schema self))) point in
  forall r w',
    _update_schema_in_storage self (schema self) w = (r, w') ->
    (r = Ok tt /\ log w' = log w ++ [(u, answer (tick (tick w)) u)]
     /\ ~ raises (answer (tick (tick w)) u))
    \/ (exists e, r = Raise e
                  /\ (server_raised w' e
                      \/ (e = OtherException "AssertionError"
                          /\ length (version_collection_properties self) <> 6%nat))).
Proof.
  intros point u r w' Hrun.
  unfold _update_schema_in_storage, bind, read_pendulum_now in Hrun.
  cbn [length] in Hrun.
  destruct (6 =? length (version_collection_properties self))%nat eqn:Hlen;
    cbn [negb] in Hrun.
  - unfold _create_point_no_vector, bind, read_precise_time in Hrun.
    cbn [clock] in Hrun. rewrite call__eq in Hrun.
    assert (Hrun' : (match answer (tick (tick w)) u with
                     | RRaise e => Raise e
                     | _ => Ok tt
                     end, after (tick (tick w)) u) = (r, w')) by exact Hrun.
    clear Hrun.
    destruct (answer (tick (tick w)) u) as [| | | |e] eqn:Hu;
      injection Hrun' as <- <-;
      try (left; repeat split; [by rewrite log_after, Hu|intros [? [=]]]).
    right. exists e. split; [reflexivity|]. left. by apply server_raised_after.
  - unfold raise in Hrun. injection Hrun as <- <-. right. eexists.
    split; [reflexivity|]. right. split; [reflexivity|].
    apply Nat.eqb_neq in Hlen. congruence.
Qed.

(** C3.  [update_stored_schema] first asks for the version record whose
    [version_hash] equals the stored hash of the schema; the version
    number is not part of the request.  When the answer holds a record, no
    other call is made: no collection is created and no version record is
    written.  When it holds none, the run either ends with [Ok] after
    checking every table in scope in order, creating the collection of
    each table the server reported missing, and then writing one version
    record, whether or not a collection was created; or it ends with the
    exception a call of the server raised (or with the failed assertion
    on the number of version properties).  With [only_tables] left out or
    empty, the tables in scope are all tables of the schema. *)
Theorem update_stored_schema_sync (self : QdrantClient)
    (only_tables : option (list string)) (w : world) :
  JobClientBase_update_stored_schema (schema self) only_tables = Ok tt ->
  let lookup := by_hash self (stored_version_hash (schema self)) in
  let w1 := after w lookup in
  let version_point :=
    {| p_id := IntId (point_id_at (precise_time (S (clock w))));
       p_payload := version_record self (pendulum_now (clock w)) |} in
  let write :=
    upsert (_make_qualified_collection_name self (version_table_name (schema self)))
      version_point in
  (forall info,
     record_in (answer w lookup) = Some info ->
     update_stored_schema self only_tables w = (Ok [], w1))
  /\ (record_in (answer w lookup) = None ->
      forall r w',
        update_stored_schema self only_tables w = (r, w') ->
        (r = Ok []
         /\ exists checks a,
              log w' = log w1 ++ checks ++ [(write, a)]
              /\ ~ raises a
              /\ ensured self (tables_in_scope self only_tables) checks)
        \/ (exists e, r = Raise e
                      /\ (server_raised w' e
                          \/ (e = OtherException "AssertionError"
                              /\ length (version_collection_properties self)
                                 <> 6%nat))))
  /\ tables_in_scope self None = tables (schema self)
  /\ tables_in_scope self (Some []) = tables (schema self).
Proof.
  intros Hsuper lookup w1 version_point write.
  assert (Hstart :
    update_stored_schema self only_tables w
    = match record_in (answer w lookup) with
      | None => bind (_execute_schema_update self only_tables)
                  (fun _ => ret ([] : list TTableSchema)) w1
      | Some _ => (Ok [], w1)
      end).
  { unfold update_stored_schema. unfold bind at 1, lift at 1.
    rewrite Hsuper. unfold bind at 1. rewrite get_stored_schema_by_hash_eq.
    fold lookup w1. by destruct (record_in (answer w lookup)). }
  split; [|split; [|split; reflexivity]].
  - intros info Hfound. by rewrite Hstart, Hfound.
  - intros Hnone r w' Hrun. rewrite Hstart, Hnone in Hrun.
    unfold bind at 1, _execute_schema_update in Hrun. unfold bind at 1 in Hrun.
    destruct (for_each (tables_in_scope self only_tables) (ensure_collection self) w1)
      as [r1 w2] eqn:Hloop.
    destruct (ensure_all self _ _ _ _ Hloop)
      as [(-> & Hclock & checks & Hlog & Hens)|(e & -> & Hraised)].
    + destruct (_update_schema_in_storage self (schema self) w2) as [r2 w3] eqn:Hwrite.
      destruct (update_schema_in_storage_cases self w2 _ _ Hwrite)
        as [(-> & Hlog3 & Hok)|(e & -> & Hfail)].
      * unfold ret in Hrun. injection Hrun as <- <-. left. split; [reflexivity|].
        exists checks, (answer (tick (tick w2)) write).
        rewrite Hclock in Hlog3, Hok. change (clock w1) with (clock w) in Hlog3, Hok.
        split; [|split; [exact Hok|exact Hens]].
        by rewrite Hlog3, Hlog, app_assoc.
      * injection Hrun as <- <-. right. by exists e.
    + injection Hrun as <- <-. right. exists e. split; [reflexivity|by left].
Qed.

End SchemaUpdate.

(** *** get_stored_state *)

Section StoredState.
Context `{Externals}.

Lemma scan_first (self : QdrantClient) (p_load_id p_dlt_load_id : string)
    (records : list Point) :
  forall w info w',
    scan_state_records self p_load_id p_dlt_load_id records w = (Ok (Some info), w') ->
    exists earlier record later load_id n checks,
      records = earlier ++ record :: later
      /\ info = {| state_info_fields := p_payload record |}
      /\ p_payload record !! p_dlt_load_id = Some load_id
      /\ 0 < n
      /\ log w' = log w ++ checks
                  ++ [(count (_make_qualified_collection_name self
                                (loads_table_name (schema self)))
                         p_load_id load_id, RCount n)]
      /\ Forall2 (fun r ev =>
                    exists l m,
                      p_payload r !! p_dlt_load_id = Some l
                      /\ ev = (count (_make_qualified_collection_name self
                                        (loads_table_name (schema self)))
                                 p_load_id l, RCount m)
                      /\ m <= 0)
           earlier checks.
Proof.
  induction records as [|record rest IH]; intros w info w' Hrun; [discriminate|].
  cbn [scan_state_records] in Hrun. unfold bind at 1, lift at 1, getitem in Hrun.
  destruct (p_payload record !! p_dlt_load_id) as [load_id|] eqn:Hid; [|discriminate].
  unfold bind at 1 in Hrun. rewrite call_v_eq in Hrun.
  set (c := count _ p_load_id load_id) in *.
  destruct (answer w c) as [| | |n|e] eqn:Ha; try discriminate.
  unfold bind at 1, lift at 1, count_of in Hrun.
  destruct (0 <? n)%Z eqn:Hn.
  - unfold bind, lift, make_StateInfo, ret in Hrun.
    destruct (StateInfo_accepts (p_payload record)); [|discriminate].
    injection Hrun as <- <-.
    exists [], record, rest, load_id, n, [].
    split; [reflexivity|]. split; [reflexivity|]. split; [exact Hid|].
    split; [by apply Z.ltb_lt|]. split; [by rewrite log_after, Ha|constructor].
  - destruct (IH _ _ _ Hrun)
      as (earlier & r & later & l & m & checks & -> & Hinfo & Hl & Hm & Hlog & Hall).
    exists (record :: earlier), r, later, l, m, ((c, RCount n) :: checks).
    split; [reflexivity|]. split; [exact Hinfo|]. split; [exact Hl|].
    split; [exact Hm|]. split.
    + rewrite Hlog, log_after, Ha, <- !app_assoc. reflexivity.
    + constructor; [|exact Hall]. exists load_id, n.
      split; [exact Hid|]. split; [reflexivity|]. by apply Z.ltb_ge.
Qed.

Lemma turn_never_raises (self : QdrantClient) (pipeline_name : string)
    (offset : option point_id) (w : world) :
  exists t w', get_stored_state_turn self pipeline_name offset w = (Ok t, w').
Proof.
  unfold get_stored_state_turn, try_except.
  destruct (bind _ _ w) as [[t|e] w']; unfold ret; by eexists _, _.
Qed.

(** The state [get_stored_state] returns is the first one of its page
    whose load completed.  A turn of the loop that returns a state asked
    for a page of at most 100 state records of the pipeline, from the
    offset it was given; it counted the loads records of the records of
    the page in order; every record before the returned one got a count
    that is not positive, the returned one a positive count, and no
    record after it was looked at. *)
Theorem stored_state_is_first_durable (self : QdrantClient) (pipeline_name : string)
    (offset : option point_id) (w : world) (info : StateInfo) (w' : world) :
  get_stored_state_turn self pipeline_name offset w = (Ok (Return (Some info)), w') ->
  exists page next earlier record later load_id n checks,
    answer w (state_page self pipeline_name offset) = RPage page next
    /\ page = earlier ++ record :: later
    /\ info = {| state_info_fields := p_payload record |}
    /\ p_payload record !! normalize_identifier "_dlt_load_id" = Some load_id
    /\ 0 < n
    /\ log w' = log w
                ++ (state_page self pipeline_name offset, RPage page next)
                   :: checks ++ [(loads_of self load_id, RCount n)]
    /\ Forall2 (fun r ev =>
                  exists l m,
                    p_payload r !! normalize_identifier "_dlt_load_id" = Some l
                    /\ ev = (loads_of self l, RCount m)
                    /\ m <= 0)
         earlier checks.
Proof.
  unfold get_stored_state_turn, try_except. unfold bind at 1.
  rewrite call_v_eq. fold (state_page self pipeline_name offset).
  destruct (answer w (state_page self pipeline_name offset))
    as [| |records next| |e] eqn:Hpage; unfold lift, unpack_page, ret;
    try discriminate.
  unfold bind at 1.
  destruct (length records =? 0)%nat; [discriminate|].
  unfold bind at 1.
  destruct (scan_state_records _ _ _ records _) as [[[found|]|e] w1] eqn:Hscan;
    try discriminate.
  intros [= <- <-].
  destruct (scan_first _ _ _ _ _ _ _ Hscan)
    as (earlier & record & later & load_id & n & checks
        & Hrecords & Hinfo & Hid & Hn & Hlog & Hall).
  exists records, next, earlier, record, later, load_id, n, checks.
  split; [reflexivity|]. split; [exact Hrecords|]. split; [exact Hinfo|].
  split; [exact Hid|]. split; [exact Hn|]. split; [|exact Hall].
  rewrite Hlog, log_after, Hpage, <- app_assoc. reflexivity.
Qed.

Lemma turn_found (self : QdrantClient) (pipeline_name : string)
    (offset : option point_id) (w : world) (info : StateInfo) (w' : world) :
  get_stored_state_turn self pipeline_name offset w = (Ok (Return (Some info)), w') ->
  exists load_id n before,
    state_info_fields info !! normalize_identifier "_dlt_load_id" = Some load_id
    /\ 0 < n
    /\ log w' = before ++ [(loads_of self load_id, RCount n)].
Proof.
  unfold get_stored_state_turn, try_except. unfold bind at 1.
  rewrite call_v_eq.
  destruct (answer w _) as [| |records next| |e]; unfold lift, unpack_page, ret;
    try discriminate.
  unfold bind at 1.
  destruct (length records =? 0)%nat; [discriminate|].
  unfold bind at 1.
  destruct (scan_state_records _ _ _ records _) as [[[found|]|e] w1] eqn:Hscan;
    try discriminate.
  intros [= <- <-].
  destruct (scan_first _ _ _ _ _ _ _ Hscan)
    as (earlier & record & later & load_id & n & checks
        & _ & -> & Hid & Hn & Hlog & _).
  exists load_id, n, (log (after w (state_page self pipeline_name offset)) ++ checks).
  split; [exact Hid|]. split; [exact Hn|]. by rewrite Hlog, app_assoc.
Qed.

(** The state [get_stored_state] returns was written by a completed load:
    the last call of the run counted the loads records of the load id of
    the returned state and the server answered with a positive count.
    The function never raises. *)
Theorem stored_state_has_completed_load (self : QdrantClient)
    (pipeline_name : string) (fuel : nat) (w : world)
    (r : res (option StateInfo)) (w' : world) :
  get_stored_state self pipeline_name fuel w = Some (r, w') ->
  (forall e, r <> Raise e)
  /\ (forall info,
        r = Ok (Some info) ->
        exists load_id n before,
          state_info_fields info !! normalize_identifier "_dlt_load_id"
          = Some load_id
          /\ 0 < n
          /\ log w' = before ++ [(loads_of self load_id, RCount n)]).
Proof.
  unfold get_stored_state. generalize (@None point_id) as offset.
  revert w. induction fuel as [|fuel IH]; intros w offset Hrun; [discriminate|].
  cbn [get_stored_state_from] in Hrun.
  destruct (turn_never_raises self pipeline_name offset w) as (t & w1 & Hturn).
  rewrite Hturn in Hrun. destruct t as [found|offset'].
  - injection Hrun as <- <-. split; [discriminate|].
    intros info [= ->]. by apply (turn_found _ _ _ _ _ _ Hturn).
  - by apply (IH _ _ Hrun).
Qed.

(** An empty page, or an exception of the server, ends the scan with
    "no state": the function returns [None] and does not raise. *)
Theorem stored_state_none (self : QdrantClient) (pipeline_name : string)
    (fuel : nat) (offset : option point_id) (w : world) :
  (exists next, answer w (state_page self pipeline_name offset) = RPage [] next)
  \/ raises (answer w (state_page self pipeline_name offset)) ->
  get_stored_state_from self pipeline_name (S fuel) offset w
  = Some (Ok None, after w (state_page self pipeline_name offset)).
Proof.
  intros Hanswer. cbn [get_stored_state_from].
  unfold get_stored_state_turn, try_except. unfold bind at 1. rewrite call_v_eq.
  fold (state_page self pipeline_name offset).
  by destruct Hanswer as [[next ->]|[e ->]].
Qed.

(** When a turn that starts at the first page ends with the offset [None]
    and leaves the server as it was, the loop starts over and never ends. *)
Lemma rescans (self : QdrantClient) (pipeline_name : string) (s : St) :
  (forall w, db w = s ->
     exists w', get_stored_state_turn self pipeline_name None w = (Ok (Again None), w')
                /\ db w' = s) ->
  forall fuel w, db w = s -> get_stored_state self pipeline_name fuel w = None.
Proof.
  intros Hturn. unfold get_stored_state.
  induction fuel as [|fuel IH]; intros w Hdb; [reflexivity|].
  cbn [get_stored_state_from]. destruct (Hturn w Hdb) as (w' & -> & Hdb').
  by apply IH.
Qed.

End StoredState.

#[local] Existing Instance mem.

(** C1, where the code departs from it.  The collection of states holds
    one record of the pipeline, written by a load that has no loads
    record.  The server returns the page with this record and the offset
    [None], since no page follows.  The count for its load id is 0, the
    loop goes round with the offset [None] and reads the first page
    again: whatever number of turns is allowed, the function does not
    return. *)
Theorem get_stored_state_rescans_orphans (fuel : nat) :
  answer (start orphaned) (state_page (demo_client None) "demo" None)
  = RPage [state_record 7 "1700000001.5"] None
  /\ answer (start orphaned) (loads_of (demo_client None) (VStr "1700000001.5"))
     = RCount 0
  /\ get_stored_state (demo_client None) "demo" fuel (start orphaned) = None.
Proof.
  split; [by vm_compute|]. split; [by vm_compute|].
  apply (rescans (H := mem) (demo_client None) "demo" orphaned); [|reflexivity].
  intros [d l c e] Hdb. cbn in Hdb. subst d.
  set (w := @Build_world mem orphaned l c e).
  exists (after (after w (state_page (demo_client None) "demo" None))
            (loads_of (demo_client None) (VStr "1700000001.5"))).
  split; reflexivity.
Qed.

(** *** The theorems at work on the in-memory server *)

Example resumed_state :
  fst <$> get_stored_state (demo_client None) "demo" 1 (start resumed)
  = Some (Ok (Some {| state_info_fields :=
                        p_payload (state_record 9 "1700000001.5") |})).
Proof. by vm_compute. Qed.

Example no_state_at_all :
  fst <$> get_stored_state (demo_client (Some "ds")) "demo" 1 (start resumed)
  = Some (Ok None).
Proof. by vm_compute. Qed.

Lemma stored_state_has_completed_load_witness :
  exists r w',
    get_stored_state (demo_client None) "demo" 1 (start resumed) = Some (r, w')
    /\ (forall e, r <> Raise e)
    /\ (forall info,
          r = Ok (Some info) ->
          exists load_id n before,
            state_info_fields info !! "_dlt_load_id" = Some load_id
            /\ 0 < n
            /\ log w' = before ++ [(loads_of (demo_client None) load_id, RCount n)]).
Proof.
  pose (self := demo_client None).
  pose (w1 := after (start resumed) (state_page self "demo" None)).
  pose (w2 := after w1 (loads_of self (VStr "1700000002.5"))).
  pose (w3 := after w2 (loads_of self (VStr "1700000001.5"))).
  assert (Hrun : get_stored_state self "demo" 1 (start resumed)
                 = Some (Ok (Some {| state_info_fields :=
                                       p_payload (state_record 9 "1700000001.5") |}),
                         w3)) by reflexivity.
  eexists _, w3. split; [exact Hrun|].
  exact (stored_state_has_completed_load self "demo" 1 (start resumed) _ w3 Hrun).
Defined.

Lemma stored_state_is_first_durable_witness :
  let self := demo_client None in
  let w := start resumed in
  let w' := after (after (after w (state_page self "demo" None))
                     (loads_of self (VStr "1700000002.5")))
              (loads_of self (VStr "1700000001.5")) in
  get_stored_state_turn self "demo" None w
  = (Ok (Return (Some {| state_info_fields :=
                           p_payload (state_record 9 "1700000001.5") |})), w')
  /\ exists page next earlier record later load_id n checks,
       answer w (state_page self "demo" None) = RPage page next
       /\ page = earlier ++ record :: later
       /\ {| state_info_fields := p_payload (state_record 9 "1700000001.5") |}
          = {| state_info_fields := p_payload record |}
       /\ p_payload record !! "_dlt_load_id" = Some load_id
       /\ 0 < n
       /\ log w' = log w
                   ++ (state_page self "demo" None, RPage page next)
                      :: checks ++ [(loads_of self load_id, RCount n)]
       /\ Forall2 (fun r ev =>
                     exists l m,
                       p_payload r !! "_dlt_load_id" = Some l
                       /\ ev = (loads_of self l, RCount m)
                       /\ m <= 0)
            earlier checks.
Proof.
  intros self w w'.
  assert (Hturn : get_stored_state_turn self "demo" None w
                  = (Ok (Return (Some {| state_info_fields :=
                                           p_payload (state_record 9 "1700000001.5") |})),
                     w')) by reflexivity.
  split; [exact Hturn|].
  exact (stored_state_is_first_durable self "demo" None w _ w' Hturn).
Defined.

Lemma stored_state_none_witness :
  let self := demo_client (Some "ds") in
  raises (answer (start resumed) (state_page self "demo" None))
  /\ get_stored_state_from self "demo" 1 None (start resumed)
     = Some (Ok None, after (start resumed) (state_page self "demo" None)).
Proof.
  intros self.
  assert (Hraises : raises (answer (start resumed) (state_page self "demo" None)))
    by (eexists; reflexivity).
  split; [exact Hraises|].
  exact (stored_state_none self "demo" 0 None (start resumed) (or_intror Hraises)).
Defined.


Lemma generate_uuid_deterministic_witness :
  let first : dict := {[ "id" := VInt 1; "name" := VStr "a" ]} in
  let second : dict := {[ "id" := VInt 1; "name" := VStr "b" ]} in
  _generate_uuid first ["id"] "ds_users" = _generate_uuid second ["id"] "ds_users"
  /\ _generate_uuid first ["id"] "ds_users" = Ok "uuid5(ds_users1)".
Proof.
  intros first second.
  assert (Hagree : forall key, key ∈ ["id"] -> first !! key = second !! key).
  { intros key Hkey. apply list_elem_of_singleton in Hkey as ->. reflexivity. }
  split; [exact (proj1 (generate_uuid_deterministic first second ["id"] "ds_users" Hagree))|].
  reflexivity.
Defined.

Lemma unique_identifiers_choice_witness :
  _list_unique_identifiers (users_table "merge") = ["id"]
  /\ _list_unique_identifiers (users_table "append") = ["email"].
Proof.
  assert (Hpk : get_columns_names_with_prop (users_table "merge") "primary_key"
                <> []) by (vm_compute; discriminate).
  assert (Happend : write_disposition (users_table "append") <> Some "merge")
    by discriminate.
  split.
  - exact (proj1 (unique_identifiers_choice (users_table "merge")) eq_refl Hpk).
  - exact (proj1 (proj2 (unique_identifiers_choice (users_table "append")))
             (or_introl Happend)).
Defined.

(** A file of two records for a table without identifier columns: the
    ids are the first two draws of the random source. *)
Example insert_only_ids :
  let t := {| table_name := "events"; write_disposition := Some "append";
              columns := [] |} in
  let lines : list dict := [{[ "kind" := VStr "a" ]}; {[ "kind" := VStr "a" ]}] in
  map fst (log (snd (LoadQdrantJob_init t lines "events"
                       (start {[ "events" := [] ]}))))
  = [upload_collection "events" [UuidId "uuid4#0"; UuidId "uuid4#1"] lines
       (NoVectors 2)].
Proof. by vm_compute. Qed.

Lemma update_stored_schema_sync_witness :
  update_stored_schema (demo_client (Some "ds")) None (start versioned)
  = (Ok [], after (start versioned) (by_hash (demo_client (Some "ds")) "h3")).
Proof.
  assert (Hsuper : JobClientBase_update_stored_schema
                     (schema (demo_client (Some "ds"))) None = Ok tt)
    by reflexivity.
  eapply (proj1 (update_stored_schema_sync (demo_client (Some "ds")) None
                   (start versioned) Hsuper)).
  vm_compute. reflexivity.
Defined.

(** The schema is not recorded yet: the four collections are checked,
    the two missing ones are created and one version record is written. *)
Example first_synchronization :
  let run := update_stored_schema (demo_client (Some "ds")) (Some ["users"; "_dlt_version"])
               (start populated) in
  fst run = Ok []
  /\ map fst (log (snd run))
     = [by_hash (demo_client (Some "ds")) "h3";
        get_collection "ds_users";
        get_collection "ds__dlt_version";
        create_collection "ds__dlt_version";
        upsert "ds__dlt_version"
          {| p_id := IntId (2 ^ 64 - 1700000000001000);
             p_payload := version_record (demo_client (Some "ds")) "t0" |}].
Proof. by vm_compute. Qed.

Lemma initialize_storage_truncation_witness :
  let run := initialize_storage (demo_client None) (Some ["users"]) (start plain) in
  (fst run = Ok tt
   /\ exists evs,
        log (snd run) = [(get_collection "DltSentinelCollection", RInfo)] ++ evs
        /\ truncation (demo_client None) ["users"] evs)
  \/ (exists e, fst run = Raise e /\ server_raised (snd run) e).
Proof.
  assert (Hne : ["users"] <> []) by discriminate.
  assert (Hinit : ~ raises (answer (start plain)
                              (get_collection (sentinel_collection (demo_client None))))).
  { intros [e He]. vm_compute in He. discriminate. }
  exact (proj1 (initialize_storage_truncation (demo_client None) ["users"]
                  (start plain) Hne Hinit) _ _ (surjective_pairing _)).
Defined.

(** Without a dataset name the collection that exists is left alone. *)
Example truncation_skips_without_dataset :
  let w' := snd (initialize_storage (demo_client None) (Some ["users"]) (start plain)) in
  map fst (log w') = [get_collection "DltSentinelCollection"; get_collection "users"]
  /\ db w' = plain.
Proof. split; reflexivity. Qed.

(** C10, where the code departs from it.  With the dataset name [ds] the
    collection [ds_users] exists and holds a point.  [initialize_storage]
    passes the qualified name to [_collection_exists], which qualifies it
    again and asks for [ds_ds_users]; that collection does not exist, so
    [ds_users] is deleted and created again, and its point is gone. *)
Theorem existing_collection_is_recreated :
  let self := demo_client (Some "ds") in
  let w' := snd (initialize_storage self (Some ["users"]) (start populated)) in
  _make_qualified_collection_name self "users" = "ds_users"
  /\ answer (start populated) (get_collection "ds_users") = RInfo
  /\ log w' = [(get_collection "ds", RInfo);
               (get_collection "ds_ds_users", not_found "ds_ds_users");
               (delete_collection "ds_users", RNone);
               (create_collection "ds_users", RNone)]
  /\ populated !! "ds_users" <> Some []
  /\ db w' !! "ds_users" = Some [].
Proof. vm_compute. repeat split; discriminate. Qed.

End QdrantFacts.

(** ** Properties of the pipeline helpers *)


Module HelpersFacts.
Import Helpers HelpersSpec ToyPipeline.

(** *** retry_load *)

(** C7.  The predicate [retry_load] returns is false for a
    [PipelineStepFailed] whose step is not among the steps given, so for
    every failure of the step "normalize" under the default ("load",); it
    is false for a terminal exception and for an exception whose
    [__context__] is terminal; it is true for every other exception. *)
Theorem retry_load_classification (steps : list string) (ex : BaseException) :
  (forall step, step_of ex = Some step -> step ∉ steps ->
     retry_load steps ex = false)
  /\ (forall terminal context,
        retry_load default_retry_steps (Exc (Some "normalize") terminal context)
        = false)
  /\ (is_terminal ex = true -> retry_load steps ex = false)
  /\ (forall cause, context_of ex = Some cause -> is_terminal cause = true ->
        retry_load steps ex = false)
  /\ ((forall step, step_of ex = Some step -> step ∈ steps) ->
      is_terminal ex = false ->
      (forall cause, context_of ex = Some cause -> is_terminal cause = false) ->
      retry_load steps ex = true).
Proof.
  destruct ex as [step_failed terminal context]. unfold retry_load. cbn.
  split; [|split; [|split; [|split]]].
  - intros step -> Hout. by rewrite bool_decide_eq_false_2.
  - reflexivity.
  - intros ->. by destruct step_failed as [step|]; [destruct (negb _)|].
  - intros cause -> ->. rewrite orb_true_r.
    by destruct step_failed as [step|]; [destruct (negb _)|].
  - intros Hin -> Hcause.
    assert (Hstep : match step_failed with
                    | Some step => negb (bool_decide (step ∈ steps))
                    | None => false
                    end = false).
    { destruct step_failed as [step|]; [|reflexivity].
      by rewrite bool_decide_eq_true_2 by by apply Hin. }
    rewrite Hstep. destruct context as [cause|]; [|reflexivity].
    by rewrite (Hcause cause eq_refl).
Qed.

Lemma retry_load_classification_witness :
  retry_load ["load"] (Exc (Some "extract") false None) = false
  /\ retry_load ["load"] (Exc (Some "load") false (Some (Exc None true None))) = false
  /\ retry_load ["load"] (Exc (Some "load") false (Some (Exc None false None))) = true.
Proof.
  split; [|split].
  - apply (proj1 (retry_load_classification ["load"] (Exc (Some "extract") false None))
             "extract"); [reflexivity|].
    intros Hin. apply list_elem_of_singleton in Hin. discriminate.
  - apply (proj1 (proj2 (proj2 (proj2
             (retry_load_classification ["load"]
                (Exc (Some "load") false (Some (Exc None true None)))))))
             (Exc None true None)); reflexivity.
  - apply (proj2 (proj2 (proj2 (proj2
             (retry_load_classification ["load"]
                (Exc (Some "load") false (Some (Exc None false None)))))))).
    + intros step [= <-]. apply list_elem_of_here.
    + reflexivity.
    + by intros cause [= <-].
Defined.

(** Only the exception and its [__context__] are looked at. *)
Example context_of_the_context :
  retry_load ["load"]
    (Exc (Some "load") false (Some (Exc None false (Some (Exc None true None)))))
  = true.
Proof. reflexivity. Qed.

(** *** DropCommand *)

Section DropFacts.
Context `{PipelineOps}.

Lemma init_done (pipeline : Pipeline) (resources : list string)
    (schema_name : option string) (state_paths : list string)
    (drop_all state_only : bool) (command : DropCommand) :
  DropCommand_init pipeline resources schema_name state_paths drop_all state_only
  = Done command ->
  Qdrant.truthy_opt (default_schema_name pipeline) = true
  /\ schemas_get pipeline (schema_key pipeline schema_name) = Some (cmd_schema command)
  /\ (_new_schema command, _new_state command, info command, _dropped_tables command)
     = drop_resources (cmd_schema command) (state pipeline) resources state_paths
         drop_all state_only
  /\ drop_tables command = negb state_only && truthy_list (_dropped_tables command)
  /\ drop_state command = drop_all || truthy_list resources || truthy_list state_paths.
Proof.
  unfold DropCommand_init. fold (schema_key pipeline schema_name).
  destruct (Qdrant.truthy_opt (default_schema_name pipeline)); [|discriminate].
  cbn [negb].
  destruct (schemas_get pipeline (schema_key pipeline schema_name)) as [schema|];
    [|discriminate].
  destruct (drop_resources schema (state pipeline) resources state_paths
              drop_all state_only) as [[[new_schema new_state] drop_info] dropped] eqn:Hplan.
  intros [= <-]. cbn. by rewrite Hplan.
Qed.

(** C2, as the code has it.  A command built with no resources, no state
    paths, [drop_all] and [state_only] false, by a planner that plans
    nothing when nothing is asked for, is empty and drops neither state
    nor tables.  Called on a pipeline with pending data it raises
    [PipelineHasPendingDataException] and calls nothing.  Otherwise it
    calls [sync_destination], and nothing else: it returns, or raises what
    the synchronization raised, and the pipeline is as the
    synchronization left it. *)
Theorem empty_drop_only_synchronizes (pipeline : Pipeline)
    (schema_name : option string) (command : DropCommand) (calls : list pcall) :
  plans_nothing_for_nothing ->
  DropCommand_init pipeline [] schema_name [] false false = Done command ->
  is_empty command = true
  /\ drop_state command = false
  /\ drop_tables command = false
  /\ (has_pending_data pipeline = true ->
      DropCommand_call command (pipeline, calls)
      = (Fail (PipelineHasPendingDataException (pipeline_name pipeline)
                 (pipelines_dir pipeline)),
         (pipeline, calls)))
  /\ (has_pending_data pipeline = false ->
      DropCommand_call command (pipeline, calls)
      = (match fst (sync_destination pipeline) with
         | Some ex => Fail (Raised ex)
         | None => Done tt
         end,
         (snd (sync_destination pipeline), calls ++ [call_sync_destination]))).
Proof.
  intros Hplanner Hinit.
  destruct (init_done _ _ _ _ _ _ _ Hinit) as (_ & _ & Hplan & Htables & Hstate).
  specialize (Hplanner (cmd_schema command) (state pipeline)).
  rewrite <- Hplan in Hplanner. destruct Hplanner as (Hdropped & Ht & Hp & Hr).
  assert (Hds : drop_state command = false) by (by rewrite Hstate).
  assert (Hdt : drop_tables command = false) by (by rewrite Htables, Hdropped).
  split; [unfold is_empty; by rewrite Ht, Hp, Hr|].
  split; [exact Hds|]. split; [exact Hdt|]. split.
  - intros Hpending. unfold DropCommand_call. cbn [fst]. by rewrite Hpending.
  - intros Hpending. unfold DropCommand_call, invoke. cbn [fst snd].
    rewrite Hpending. destruct (sync_destination pipeline) as [[ex|] p1]; [reflexivity|].
    by rewrite Hds, Hdt.
Qed.


End DropFacts.

(** *** The theorems at work on the pipeline kept in memory *)

#[local] Existing Instance toy.

Lemma filter_none {A} (f : A -> bool) (l : list A) :
  (forall x, f x = false) -> List.filter f l = [].
Proof.
  intros Hf. induction l as [|x l IH]; [reflexivity|]. cbn. by rewrite Hf.
Qed.

Lemma toy_plans_nothing : @plans_nothing_for_nothing toy.
Proof.
  intros schema state. cbn. unfold toy_drop_resources. cbn.
  rewrite !filter_none by reflexivity. by cbn.
Qed.



Lemma empty_drop_only_synchronizes_witness :
  exists command,
    DropCommand_init (demo_pipeline None) [] None [] false false = Done command
    /\ is_empty command = true
    /\ DropCommand_call command (demo_pipeline None, [])
       = (Done tt, (synced (demo_pipeline None), [call_sync_destination])).
Proof.
  eexists. split; [reflexivity|].
  match goal with
  | |- is_empty ?c = _ /\ _ =>
      destruct (empty_drop_only_synchronizes (H := toy) (demo_pipeline None) None c []
                  toy_plans_nothing eq_refl)
        as (Hempty & _ & _ & _ & Hcall)
  end.
  split; [exact Hempty|]. exact (Hcall eq_refl).
Defined.

(** C2 as stated does not hold: the command that has nothing to drop
    is empty, and yet calling it synchronizes the pipeline with the
    destination before it returns. *)
Lemma empty_drop_calls_the_destination :
  exists command,
    DropCommand_init (demo_pipeline None) [] None [] false false = Done command
    /\ is_empty command = true
    /\ fst (DropCommand_call command (demo_pipeline None, [])) = Done tt
    /\ snd (snd (DropCommand_call command (demo_pipeline None, [])))
       = [call_sync_destination]
    /\ snd (snd (DropCommand_call command (demo_pipeline None, []))) <> []
    /\ tp_synced (fst (snd (DropCommand_call command (demo_pipeline None, []))))
       = 1%nat.
Proof.
  eexists. split; [reflexivity|]. repeat split. discriminate.
Qed.


End HelpersFacts.

(** ** More properties of the Qdrant client *)

Module QdrantMoreFacts.
Import Qdrant MemStore QdrantSpec QdrantFacts QdrantMore.

(** *** Names of collections *)

Lemma length_append (s t : string) :
  String.length (s ++ t) = (String.length s + String.length t)%nat.
Proof. induction s as [|a s IH]; simpl; [reflexivity|by rewrite IH]. Qed.

Lemma append_inj_r (s a b : string) : (s ++ a = s ++ b)%string -> a = b.
Proof. induction s as [|c s IH]; simpl; [done|]. intros [= Heq]. by apply IH. Qed.

Lemma truthy_str_length (s : string) :
  truthy_str s = true -> (0 < String.length s)%nat.
Proof. destruct s; [discriminate|cbn; lia]. Qed.

Lemma qualified_with_dataset (self : QdrantClient) (table : string) :
  truthy_opt (dataset_name self) = true ->
  exists ds, dataset_name self = Some ds /\ truthy_str ds = true
             /\ _make_qualified_collection_name self table
                = (ds ++ dataset_separator self ++ table)%string.
Proof.
  unfold _make_qualified_collection_name. intros Hds. rewrite Hds.
  destruct (dataset_name self) as [ds|]; [|discriminate]. by exists ds.
Qed.

(** Two tables never share a collection; qualifying a name that is
    already qualified gives the same name exactly when no dataset name is
    set; and a qualified name is never shorter than the name of the
    table. *)
Theorem qualified_names (self : QdrantClient) (table other : string) :
  (_make_qualified_collection_name self table
   = _make_qualified_collection_name self other -> table = other)
  /\ (_make_qualified_collection_name self
        (_make_qualified_collection_name self table)
      = _make_qualified_collection_name self table
      <-> truthy_opt (dataset_name self) = false)
  /\ (String.length table
      <= String.length (_make_qualified_collection_name self table))%nat.
Proof.
  destruct (truthy_opt (dataset_name self)) eqn:Hds.
  - destruct (qualified_with_dataset self table Hds) as (ds & Hname & Htruthy & Hq).
    assert (Hall : forall t, _make_qualified_collection_name self t
                             = (ds ++ dataset_separator self ++ t)%string).
    { intros t. destruct (qualified_with_dataset self t Hds) as (ds' & Hname' & _ & ->).
      congruence. }
    split; [|split].
    + rewrite !Hall. intros Heq. by do 2 apply append_inj_r in Heq.
    + split; [|discriminate]. intros Heq. apply (f_equal String.length) in Heq.
      rewrite (Hall (_make_qualified_collection_name self table)) in Heq.
      rewrite !length_append in Heq. apply truthy_str_length in Htruthy. lia.
    + rewrite Hall, !length_append. lia.
  - rewrite !qualified_without_dataset by assumption. by repeat split.
Qed.

(** *** The answers [_collection_exists] understands *)

Lemma says_missing_value_error (msg : string) :
  says_missing (RRaise (ValueError msg)) <-> contains "not found" msg = true.
Proof.
  split.
  - intros [(m & [= <-] & Hm)|[=]]. exact Hm.
  - intros Hm. left. by exists msg.
Qed.

Lemma says_missing_response (code : Z) :
  says_missing (RRaise (UnexpectedResponse code)) <-> code = 404.
Proof.
  split.
  - by intros [(m & [=] & _)|[= ->]].
  - intros ->. by right.
Qed.

(** [_collection_exists] makes one call, [get_collection].  It returns
    [True] exactly when the call does not raise, [False] exactly when it
    raises a [ValueError] whose text contains "not found" or an
    [UnexpectedResponse] with status 404, and it raises again every other
    exception of the call. *)
Theorem collection_exists_classification `{Externals} (self : QdrantClient)
    (table : string) (qualify : bool) (w : world) :
  let g := get_collection (if qualify
                           then _make_qualified_collection_name self table
                           else table) in
  let run := _collection_exists self table qualify w in
  snd run = after w g
  /\ (fst run = Ok true <-> ~ raises (answer w g))
  /\ (fst run = Ok false <-> says_missing (answer w g))
  /\ (forall e, fst run = Raise e
                <-> answer w g = RRaise e /\ ~ says_missing (answer w g)).
Proof.
  intros g run. subst run. unfold _collection_exists, bind. fold g.
  rewrite call_eq.
  assert (Hother : forall e,
    (forall msg, e <> ValueError msg) -> (forall code, e <> UnexpectedResponse code) ->
    ~ says_missing (RRaise e)).
  { intros e Hv Hu [(msg & [= ->] & _)|[= ->]]; [by eapply Hv|by eapply Hu]. }
  destruct (answer w g) as [| | | |e] eqn:Ha; cbn [fst snd].
  1-4: (split; [reflexivity|]; split; [|split]; [split|split|intros e; split];
        [ by intros _ [? [=]] | done | done | by intros [(? & [=] & _)|[=]]
        | done | by intros [[=] _] ]).
  assert (Hraises : raises (RRaise e)) by by eexists.
  destruct e as [msg|code|key| | |cls].
  - pose proof (says_missing_value_error msg) as Hiff.
    destruct (contains "not found" msg); cbn [fst snd];
      (split; [reflexivity|]; split; [|split]; [split|split|intros e; split]).
    all: try done.
    + intros _. by apply Hiff.
    + intros [_ Hno]. exfalso. apply Hno. by apply Hiff.
    + intros Hm. apply Hiff in Hm. discriminate.
    + intros [= <-]. split; [reflexivity|]. intros Hm. apply Hiff in Hm. discriminate.
    + by intros [[= <-] _].
  - pose proof (says_missing_response code) as Hiff.
    destruct (code =? 404)%Z eqn:Hcode; cbn [fst snd];
      [apply Z.eqb_eq in Hcode|apply Z.eqb_neq in Hcode];
      (split; [reflexivity|]; split; [|split]; [split|split|intros e; split]).
    all: try done.
    + intros _. by apply Hiff.
    + intros [_ Hno]. exfalso. apply Hno. by apply Hiff.
    + intros Hm. by apply Hiff in Hm.
    + intros [= <-]. split; [reflexivity|]. intros Hm. by apply Hiff in Hm.
    + by intros [[= <-] _].
  - split; [reflexivity|]; split; [|split]; [split|split|intros e; split]; try done.
    + by intros [(? & [=] & _)|[=]].
    + intros [= <-]. split; [reflexivity|]. by apply Hother.
    + by intros [[= <-] _].
  - split; [reflexivity|]; split; [|split]; [split|split|intros e; split]; try done.
    + by intros [(? & [=] & _)|[=]].
    + intros [= <-]. split; [reflexivity|]. by apply Hother.
    + by intros [[= <-] _].
  - split; [reflexivity|]; split; [|split]; [split|split|intros e; split]; try done.
    + by intros [(? & [=] & _)|[=]].
    + intros [= <-]. split; [reflexivity|]. by apply Hother.
    + by intros [[= <-] _].
  - split; [reflexivity|]; split; [|split]; [split|split|intros e; split]; try done.
    + by intros [(? & [=] & _)|[=]].
    + intros [= <-]. split; [reflexivity|]. by apply Hother.
    + by intros [[= <-] _].
Qed.

(** The text is compared as it is: another spelling is not understood. *)
Example not_found_is_case_sensitive :
  contains "not found" "Collection users not found" = true
  /\ contains "not found" "Collection users Not Found" = false.
Proof. by split. Qed.

(** *** initialize_storage on a fresh destination *)

Lemma collection_exists_run `{Externals} (self : QdrantClient) (table : string)
    (qualify : bool) (w : world) :
  let g := get_collection (if qualify
                           then _make_qualified_collection_name self table
                           else table) in
  (~ raises (answer w g) ->
   _collection_exists self table qualify w = (Ok true, after w g))
  /\ (says_missing (answer w g) ->
      _collection_exists self table qualify w = (Ok false, after w g))
  /\ (forall e, answer w g = RRaise e -> ~ says_missing (answer w g) ->
        _collection_exists self table qualify w = (Raise e, after w g)).
Proof.
  intros g.
  destruct (collection_exists_cases self table qualify w)
    as [[Hok Heq]|[[Hmiss Heq]|(e & Ha & Heq)]]; fold g in Heq; rewrite Heq.
  - fold g in Hok. split; [done|]. split.
    + intros Hmiss. exfalso. apply Hok. by apply says_missing_raises.
    + intros e Ha. exfalso. apply Hok. by exists e.
  - fold g in Hmiss. split; [|split; [done|]].
    + intros Hno. exfalso. apply Hno. by apply says_missing_raises.
    + intros e _ Hno. contradiction.
  - fold g in Ha. split; [|split].
    + intros Hno. exfalso. apply Hno. by exists e.
    + intros Hmiss. exfalso. revert Heq.
      unfold _collection_exists, bind. fold g. rewrite call_eq, Ha.
      rewrite Ha in Hmiss.
      destruct e as [msg|code| | | |].
      * apply says_missing_value_error in Hmiss. by rewrite Hmiss.
      * apply says_missing_response in Hmiss as ->. done.
      * by destruct Hmiss as [(? & [=] & _)|[=]].
      * by destruct Hmiss as [(? & [=] & _)|[=]].
      * by destruct Hmiss as [(? & [=] & _)|[=]].
      * by destruct Hmiss as [(? & [=] & _)|[=]].
    + intros e' Ha' _. rewrite Ha in Ha'. by injection Ha' as <-.
Qed.

(** When the sentinel collection is missing, [initialize_storage] creates
    it and does nothing else, whatever tables it was asked to truncate.
    When the sentinel exists and no table is to be truncated, the check of
    the sentinel is the only call.  Any other exception of that check is
    raised again and nothing is created. *)
Theorem initialize_storage_creates_sentinel `{Externals} (self : QdrantClient)
    (truncate_tables : option (list string)) (w : world) :
  let g := get_collection (sentinel_collection self) in
  let c := create_collection (sentinel_collection self) in
  (says_missing (answer w g) ->
   initialize_storage self truncate_tables w
   = (match answer (after w g) c with RRaise e => Raise e | _ => Ok tt end,
      after (after w g) c))
  /\ (~ raises (answer w g) ->
      truncate_tables = None \/ truncate_tables = Some [] ->
      initialize_storage self truncate_tables w = (Ok tt, after w g))
  /\ (forall e,
        answer w g = RRaise e -> ~ says_missing (answer w g) ->
        initialize_storage self truncate_tables w = (Raise e, after w g)).
Proof.
  intros g c.
  destruct (collection_exists_run self (sentinel_collection self) false w)
    as (Hpresent & Hmissing & Hraise).
  fold g in Hpresent, Hmissing, Hraise.
  unfold initialize_storage, is_storage_initialized, bind.
  split; [|split].
  - intros Hmiss. rewrite (Hmissing Hmiss). cbn [negb].
    unfold _create_sentinel_collection, _create_collection. by rewrite call__eq.
  - intros Hok Hnone. rewrite (Hpresent Hok). cbn [negb].
    by destruct Hnone as [-> | ->].
  - intros e Ha Hno. by rewrite (Hraise e Ha Hno).
Qed.

(** *** complete_load and the dictionaries built from two lists *)

Lemma foldl_insert_lookup (keys : list string) (values : list value) :
  forall (m : dict) (i : nat) (k : string) (v : value),
    NoDup keys -> keys !! i = Some k -> values !! i = Some v ->
    foldl (fun m kv => <[fst kv := snd kv]> m) m (zip keys values) !! k = Some v.
Proof.
  assert (Hkeep : forall (l : list (string * value)) (m : dict) (k : string),
            k ∉ l.*1 ->
            foldl (fun m kv => <[fst kv := snd kv]> m) m l !! k = m !! k).
  { induction l as [|[k0 v0] l IH]; intros m k Hk; [reflexivity|].
    cbn. rewrite IH.
    - apply lookup_insert_ne. intros ->. apply Hk. cbn. apply list_elem_of_here.
    - intros Hin. apply Hk. cbn. by apply list_elem_of_further. }
  revert values. induction keys as [|k0 keys IH]; intros values m i k v Hnd Hk Hv.
  - by destruct i.
  - destruct values as [|v0 values]; [by destruct i|].
    apply NoDup_cons in Hnd as [Hfresh Hnd]. cbn.
    destruct i as [|i]; cbn in Hk, Hv.
    + injection Hk as <-. injection Hv as <-.
      rewrite Hkeep; [apply lookup_insert_eq|].
      intros Hin. apply Hfresh.
      apply list_elem_of_fmap in Hin as ([k' v'] & -> & Hin).
      apply elem_of_zip_l in Hin. exact Hin.
    + by apply (IH values _ i).
Qed.

(** A key that occurs twice keeps the value given last, as in Python. *)
Example dict_of_zip_last_wins :
  dict_of_zip ["a"; "b"; "a"] [VInt 1; VInt 2; VInt 3] !! "a" = Some (VInt 3).
Proof. reflexivity. Qed.

(** [complete_load] reads the clock, then checks that there are five
    loads properties: when there are not, it raises [AssertionError] and
    calls nothing.  Otherwise it makes one call, an upsert into the
    qualified loads collection of a point without vector whose id is the
    one of the next reading of the clock and whose payload pairs the
    properties with the load id, the schema name, the status 0, the time
    and the [version_hash] of the schema; the result is the result of
    that call.  When the five properties are distinct, each is found in
    the payload with its value. *)
Theorem complete_load_writes_one_record `{Externals} (self : QdrantClient)
    (load_id : string) (w : world) :
  let properties := loads_collection_properties self in
  let values :=
    [VStr load_id; VStr (name (schema self)); VInt 0;
     VStr (pendulum_now (clock w)); VStr (version_hash (schema self))] in
  let point := {| p_id := IntId (point_id_at (precise_time (S (clock w))));
                  p_payload := dict_of_zip properties values |} in
  let u := upsert (_make_qualified_collection_name self
                     (loads_table_name (schema self))) point in
  (length properties <> 5%nat ->
   complete_load self load_id w = (Raise (OtherException "AssertionError"), tick w))
  /\ (length properties = 5%nat ->
      complete_load self load_id w
      = (match answer (tick (tick w)) u with RRaise e => Raise e | _ => Ok tt end,
         after (tick (tick w)) u))
  /\ (NoDup properties ->
      forall i k v, properties !! i = Some k -> values !! i = Some v ->
                    p_payload point !! k = Some v).
Proof.
  intros properties values point u.
  unfold complete_load, bind, read_pendulum_now. cbn [length].
  fold properties. split; [|split].
  - intros Hlen. apply Nat.eqb_neq in Hlen. rewrite Nat.eqb_sym in Hlen.
    by rewrite Hlen.
  - intros Hlen. rewrite Hlen. cbn [Nat.eqb negb].
    unfold _create_point_no_vector, bind, read_precise_time. cbn [clock].
    by rewrite call__eq.
  - intros Hnd i k v Hk Hv. cbn [p_payload point]. unfold dict_of_zip.
    by apply (foldl_insert_lookup properties values ∅ i).
Qed.

(** *** A load job uploads its file whole or not at all *)

Section Jobs.
Context `{Externals}.

Lemma bind_run {A B} (m : M A) (k : A -> M B) (w : world) :
  bind m k w = match m w with
               | (Ok a, w') => k a w'
               | (Raise e, w') => (Raise e, w')
               end.
Proof. reflexivity. Qed.

Lemma str_items_raises (data : dict) (keys : list string) (e : exn) :
  str_items data keys = Raise e -> exists key, key ∈ keys /\ e = KeyError key.
Proof.
  induction keys as [|key keys IH]; [discriminate|]. cbn. unfold getitem.
  destruct (data !! key).
  - destruct (str_items data keys) as [vs|e']; [discriminate|].
    intros [= <-]. destruct (IH eq_refl) as (k & Hk & ->).
    exists k. split; [by apply list_elem_of_further|reflexivity].
  - intros [= <-]. exists key. split; [apply list_elem_of_here|reflexivity].
Qed.

Lemma point_id_for_world (ids : list string) (c : string) (data : dict) (w : world) :
  let run := point_id_for ids c data w in
  db (snd run) = db w /\ log (snd run) = log w /\ clock (snd run) = clock w
  /\ (forall e, fst run = Raise e -> exists key, key ∈ ids /\ e = KeyError key).
Proof.
  unfold point_id_for. destruct (truthy_list ids).
  - unfold bind, lift, ret, _generate_uuid, join_items.
    destruct (str_items data ids) as [vs|e] eqn:Hitems; cbn; repeat split; try done.
    intros e' [= <-]. by apply (str_items_raises data).
  - unfold draw_uuid4. cbn. repeat split; done.
Qed.

Lemma read_lines_shape (ef ids : list string) (c : string) (lines : list dict) :
  forall w r w',
    read_lines ef ids c lines w = (r, w') ->
    db w' = db w /\ log w' = log w /\ clock w' = clock w
    /\ match r with
       | Ok (docs, payloads, idl) =>
           payloads = lines /\ length idl = length lines
           /\ length docs = (if (0 <? length ef)%nat then length lines else 0%nat)
       | Raise e => exists key, (key ∈ ids \/ key ∈ ef) /\ e = KeyError key
       end.
Proof.
  induction lines as [|data rest IH]; intros w r w' Hrun.
  - cbn [read_lines] in Hrun. unfold ret in Hrun. injection Hrun as <- <-.
    cbn [length]. do 5 (split; [reflexivity|]). by destruct (0 <? length ef)%nat.
  - cbn [read_lines] in Hrun. unfold bind at 1 in Hrun.
    destruct (point_id_for_world ids c data w) as (Hdb & Hlog & Hclock & Hraise).
    destruct (point_id_for ids c data w) as [[pid|e] w1]; cbn [fst snd] in *.
    + unfold bind at 1 in Hrun.
      assert (Hdoc : exists r,
        (if (0 <? length ef)%nat
         then bind (lift (_get_embedding_doc ef data)) (fun d => ret [d])
         else ret []) w1 = (r, w1)
        /\ match r with
           | Ok doc => length doc = (if (0 <? length ef)%nat then 1%nat else 0%nat)
           | Raise e => exists key, key ∈ ef /\ e = KeyError key
           end).
      { destruct (0 <? length ef)%nat; unfold bind, lift, ret; [|by eexists].
        unfold _get_embedding_doc, join_items.
        destruct (str_items data ef) as [vs|e] eqn:Hitems; eexists; (split; [reflexivity|]).
        - reflexivity.
        - by apply (str_items_raises data). }
      destruct Hdoc as (rd & Hrd & Hr). rewrite Hrd in Hrun. destruct rd as [doc|e].
      * unfold bind at 1 in Hrun.
        destruct (read_lines ef ids c rest w1) as [[[[docs payloads] idl]|e] w2] eqn:Hrest.
        -- destruct (IH _ _ _ Hrest) as (Hdb2 & Hlog2 & Hclock2 & -> & Hids & Hdocs).
           unfold ret in Hrun. injection Hrun as <- <-.
           split; [congruence|]. split; [congruence|]. split; [congruence|].
           split; [reflexivity|]. split; [cbn [length]; lia|].
           rewrite length_app, Hr, Hdocs. cbn [length].
           destruct (0 <? length ef)%nat; lia.
        -- destruct (IH _ _ _ Hrest) as (Hdb2 & Hlog2 & Hclock2 & Hkey).
           injection Hrun as <- <-.
           split; [congruence|]. split; [congruence|]. split; [congruence|]. exact Hkey.
      * injection Hrun as <- <-.
        split; [exact Hdb|]. split; [exact Hlog|]. split; [exact Hclock|].
        destruct Hr as (key & Hkey & ->). exists key. split; [by right|reflexivity].
    + injection Hrun as <- <-.
      split; [exact Hdb|]. split; [exact Hlog|]. split; [exact Hclock|].
      destruct (Hraise e eq_refl) as (key & Hkey & ->).
      exists key. split; [by left|reflexivity].
Qed.


Lemma read_lines_same (ef ids : list string) (c : string) (lines : list dict) :
  ids <> [] ->
  forall w1 w2,
    fst (read_lines ef ids c lines w1) = fst (read_lines ef ids c lines w2).
Proof.
  intros Hne. induction lines as [|data rest IH]; intros w1 w2; [reflexivity|].
  cbn [read_lines]. rewrite !bind_run.
  assert (Hid : forall w, point_id_for ids c data w
                          = (match _generate_uuid data ids c with
                             | Ok s => Ok (UuidId s)
                             | Raise e => Raise e
                             end, w)).
  { intros w. unfold point_id_for. destruct ids as [|k ks]; [contradiction|].
    cbn [truthy_list]. unfold bind, lift, ret.
    by destruct (_generate_uuid data (k :: ks) c). }
  rewrite !Hid. destruct (_generate_uuid data ids c) as [s|e]; [|reflexivity].
  rewrite !bind_run.
  assert (Hdoc : exists r, forall w,
    (if (0 <? length ef)%nat
     then bind (lift (_get_embedding_doc ef data)) (fun d => ret [d])
     else ret []) w = (r, w)).
  { destruct (0 <? length ef)%nat; unfold bind, lift, ret; [|by eexists].
    destruct (_get_embedding_doc ef data); by eexists. }
  destruct Hdoc as [r Hdoc]. rewrite !Hdoc. destruct r as [doc|e]; [|reflexivity].
  rewrite !bind_run. specialize (IH w1 w2).
  destruct (read_lines ef ids c rest w1) as [[[[d1 p1] i1]|e1] w1'],
           (read_lines ef ids c rest w2) as [[[[d2 p2] i2]|e2] w2'];
    cbn [fst] in IH; try discriminate; unfold ret; cbn [fst]; congruence.
Qed.

(** For a table with identifier columns, loading the same file for the
    same table sends the same request, ids included, whatever the load id,
    the state of the server, the clock and the random source: a second
    load of the file addresses the points of the first. *)
Theorem reload_sends_same_request (self : QdrantClient) (table : TTableSchema)
    (lines : list dict) (load_id1 load_id2 : string) (w1 w2 : world) :
  _list_unique_identifiers table <> [] ->
  sent w1 (snd (start_file_load self table lines load_id1 w1))
  = sent w2 (snd (start_file_load self table lines load_id2 w2)).
Proof.
  intros Hne. unfold start_file_load.
  set (c := _make_qualified_collection_name self (table_name table)).
  set (fields := get_columns_names_with_prop table VECTORIZE_HINT).
  set (identifiers := _list_unique_identifiers table) in *.
  assert (Hrun : forall w,
    sent w (snd (LoadQdrantJob_init table lines c w))
    = match fst (read_lines fields identifiers c lines w) with
      | Ok (docs, payloads, idl) =>
          [upload_collection c idl payloads
             (if (0 <? length fields)%nat
              then Embeddings vector_field_name docs
              else NoVectors (length idl))]
      | Raise _ => []
      end).
  { intros w. unfold sent, news, LoadQdrantJob_init. fold fields identifiers.
    rewrite bind_run.
    destruct (read_lines fields identifiers c lines w)
      as [[[[docs payloads] idl]|e] w'] eqn:Hread;
      destruct (read_lines_shape _ _ _ _ _ _ _ Hread) as (_ & Hlog & _);
      cbn [fst snd].
    - unfold _upload_data. rewrite bind_run, call__eq.
      set (u := upload_collection _ _ _ _).
      assert (Hlog' : forall w'' : world,
                log w'' = log (after w' u) ->
                map fst (drop (length (log w)) (log w'')) = [u]).
      { intros w'' ->. rewrite log_after, Hlog, drop_app_length. reflexivity. }
      destruct (answer w' u); by apply Hlog'.
    - by rewrite Hlog, drop_ge. }
  rewrite !Hrun.
  by rewrite (read_lines_same fields identifiers c lines Hne w1 w2).
Qed.

End Jobs.

(** *** Dropping the storage *)

Section DropStorage.
Context `{Listing}.

Lemma list_collections_run (w : world) :
  list_collections w
  = (fst (get_collections (db w)),
     {| db := snd (get_collections (db w)); log := log w;
        clock := clock w; entropy := entropy w |}).
Proof. unfold list_collections. by destruct (get_collections (db w)). Qed.

Lemma deleted_app (names more : list string) (evs evs' : list event) (r : res unit) :
  deleted names evs (Ok tt) -> deleted more evs' r ->
  deleted (names ++ more) (evs ++ evs') r.
Proof.
  intros Hfirst Hthen. remember (Ok tt) as ok eqn:Hok.
  induction Hfirst as [|c rest a evs0 r0 Ha Hrest IH|c rest e]; [done| |discriminate].
  cbn. apply deleted_next; [exact Ha|]. by apply IH.
Qed.

Lemma deleted_stops (names more : list string) (evs : list event) (e : exn) :
  deleted names evs (Raise e) -> deleted (names ++ more) evs (Raise e).
Proof.
  intros Hfirst. remember (Raise e) as r eqn:Hr.
  induction Hfirst as [|c rest a evs0 r0 Ha Hrest IH|c rest e0]; [discriminate| |].
  - cbn. apply deleted_next; [exact Ha|]. by apply IH.
  - injection Hr as ->. cbn. apply deleted_refused.
Qed.

(** The two loops of [drop_storage]: a loop that deletes the names a test
    selects. *)
Lemma delete_loop (p : string -> bool) (names : list string) :
  forall w,
    let run := for_each names
                 (fun c => if p c then call_ (delete_collection c) else ret tt) w in
    exists evs, log (snd run) = log w ++ evs
                /\ deleted (List.filter p names) evs (fst run).
Proof.
  induction names as [|c rest IH]; intros w.
  - exists []. cbn. split; [by rewrite app_nil_r|constructor].
  - cbn [for_each List.filter]. cbv zeta. rewrite bind_run. destruct (p c).
    + rewrite call__eq.
      destruct (answer w (delete_collection c)) as [| | | |e] eqn:Ha;
        try (destruct (IH (after w (delete_collection c))) as (evs & Hlog & Hdel);
             exists ((delete_collection c, answer w (delete_collection c)) :: evs);
             split; [by rewrite Hlog, log_after, <- app_assoc|];
             rewrite Ha; apply deleted_next; [by intros [? [=]]|exact Hdel]).
      exists [(delete_collection c, RRaise e)]. cbn [fst snd].
      split; [by rewrite log_after, Ha|apply deleted_refused].
    + unfold ret at 1. apply IH.
Qed.

Lemma drop_storage_run (self : QdrantClient) (w : world) :
  let run := drop_storage self w in
  match get_collections (db w) with
  | (Raise e, s) => fst run = Raise e /\ log (snd run) = log w /\ db (snd run) = s
  | (Ok collection_name_list, s) =>
      exists evs, log (snd run) = log w ++ evs
                  /\ deleted (drop_targets self collection_name_list) evs (fst run)
  end.
Proof.
  cbv zeta. unfold drop_storage. rewrite bind_run, list_collections_run.
  destruct (get_collections (db w)) as [[listing|e] s]; cbn [fst snd]; [|done].
  set (w0 := {| db := s; log := log w; clock := clock w; entropy := entropy w |}).
  rewrite bind_run. unfold drop_targets.
  set (loop := if truthy_opt (dataset_name self) then _ else _).
  set (targets := if truthy_opt (dataset_name self) then _ else _).
  assert (Hloop : exists evs, log (snd (loop w0)) = log w ++ evs
                              /\ deleted targets evs (fst (loop w0))).
  { subst loop targets. destruct (truthy_opt (dataset_name self)).
    - apply (delete_loop _ listing w0).
    - apply (delete_loop (fun c => bool_decide (c ∈ listing)) _ w0). }
  destruct Hloop as (evs & Hlog & Hdel).
  destruct (loop w0) as [[[]|e] w1]; cbn [fst snd] in *.
  - unfold _delete_sentinel_collection. rewrite call__eq.
    set (d := delete_collection (sentinel_collection self)).
    exists (evs ++ [(d, answer w1 d)]). cbn [fst snd].
    split; [by rewrite log_after, Hlog, <- app_assoc|].
    apply deleted_app; [exact Hdel|].
    destruct (answer w1 d) as [| | | |e] eqn:Ha;
      try (apply deleted_next; [by intros [? [=]]|constructor]).
    apply deleted_refused.
  - exists evs. split; [exact Hlog|]. by apply deleted_stops.
Qed.

(** [drop_storage] asks the server for its collections and then only
    deletes: with a dataset name, the listed collections whose name starts
    with the dataset name and the separator, in the order of the listing;
    without one, the tables of the schema that are listed, in the order of
    the schema; then the sentinel collection, listed or not.  It stops at
    the first deletion the server refuses and raises its exception; when
    the listing itself fails, nothing is deleted and that exception is
    raised. *)
Theorem drop_storage_deletes_in_order (self : QdrantClient) (w : world) :
  let run := drop_storage self w in
  match get_collections (db w) with
  | (Raise e, s) => fst run = Raise e /\ news w (snd run) = []
  | (Ok collection_name_list, s) =>
      deleted (drop_targets self collection_name_list) (news w (snd run)) (fst run)
      /\ log (snd run) = log w ++ news w (snd run)
  end.
Proof.
  cbv zeta. pose proof (drop_storage_run self w) as Hrun. cbv zeta in Hrun.
  unfold news. destruct (get_collections (db w)) as [[listing|e] s].
  - destruct Hrun as (evs & -> & Hdel). by rewrite drop_app_length.
  - destruct Hrun as (-> & -> & _). split; [reflexivity|]. by rewrite drop_ge.
Qed.

Lemma deleted_all (names : list string) (evs : list event) :
  deleted names evs (Ok tt) -> map fst evs = map delete_collection names.
Proof.
  intros Hdel. remember (Ok tt) as ok eqn:Hok.
  induction Hdel as [|c rest a evs0 r0 Ha Hrest IH|c rest e]; [done| |discriminate].
  cbn. by rewrite IH.
Qed.

Lemma append_assoc (a b c : string) : (a ++ (b ++ c) = (a ++ b) ++ c)%string.
Proof.
  induction a as [|x a IH]; [reflexivity|].
  change (String x (a ++ (b ++ c)) = String x ((a ++ b) ++ c))%string.
  by rewrite IH.
Qed.

Lemma prefix_app (p s : string) : String.prefix p (p ++ s) = true.
Proof.
  induction p as [|a p IH]; [by destruct s|].
  change (String.prefix (String a p) (String a (p ++ s)) = true).
  cbn [String.prefix]. destruct (Ascii.ascii_dec a a); [exact IH|contradiction].
Qed.

(** A dataset whose name extends the name of another dataset by the
    separator is dropped with it: when [drop_storage] of the dataset [d]
    runs to its end, every listed collection of a dataset named [d], the
    separator and anything more has been deleted, and so has the sentinel
    of that dataset. *)
Theorem drop_storage_reaches_longer_names (self other : QdrantClient)
    (d more table : string) (collection_name_list : list string) (s : St)
    (w : world) :
  dataset_name self = Some d ->
  truthy_str d = true ->
  dataset_name other = Some (d ++ dataset_separator self ++ more)%string ->
  dataset_separator other = dataset_separator self ->
  get_collections (db w) = (Ok collection_name_list, s) ->
  fst (drop_storage self w) = Ok tt ->
  (_make_qualified_collection_name other table ∈ collection_name_list ->
   delete_collection (_make_qualified_collection_name other table)
   ∈ sent w (snd (drop_storage self w)))
  /\ (sentinel_collection other ∈ collection_name_list ->
      delete_collection (sentinel_collection other)
      ∈ sent w (snd (drop_storage self w))).
Proof.
  intros Hself Hd Hother Hsep Hlist Hok.
  pose proof (drop_storage_run self w) as Hrun. cbv zeta in Hrun.
  rewrite Hlist, Hok in Hrun. destruct Hrun as (evs & Hlog & Hdel).
  assert (Hsent : sent w (snd (drop_storage self w))
                  = map delete_collection (drop_targets self collection_name_list)).
  { unfold sent, news. rewrite Hlog, drop_app_length. by apply deleted_all. }
  assert (Htruthy : forall x, truthy_str (d ++ x) = true).
  { intros x. destruct d; [discriminate|reflexivity]. }
  assert (Hreach : forall c, c ∈ collection_name_list ->
            String.prefix (d ++ dataset_separator self) c = true ->
            delete_collection c ∈ sent w (snd (drop_storage self w))).
  { intros c Hin Hpre. rewrite Hsent. apply list_elem_of_fmap_2.
    unfold drop_targets, truthy_opt. rewrite Hself, Hd. unfold default. cbn [from_option id].
    apply elem_of_app. left. apply list_elem_of_In, filter_In.
    split; [by apply list_elem_of_In|exact Hpre]. }
  split; intros Hin; apply Hreach; try exact Hin.
  - assert (Hq : _make_qualified_collection_name other table
                 = ((d ++ dataset_separator self)
                    ++ (more ++ dataset_separator self ++ table))%string).
    { unfold _make_qualified_collection_name, truthy_opt.
      rewrite Hother, Htruthy, Hsep. unfold default. cbn [from_option id].
      by rewrite <- !append_assoc. }
    rewrite Hq. apply prefix_app.
  - assert (Hq : sentinel_collection other
                 = ((d ++ dataset_separator self) ++ more)%string).
    { unfold sentinel_collection, truthy_opt. rewrite Hother, Htruthy.
      unfold default. cbn [from_option id]. by rewrite append_assoc. }
    rewrite Hq. apply prefix_app.
Qed.

End DropStorage.

(** *** Records that share an id *)

Section Collisions.
Context `{Externals}.

Lemma generate_uuid_of_values (data : dict) (ids : list string) (c : string)
    (values : list value) :
  Forall2 (fun key v => data !! key = Some v) ids values ->
  _generate_uuid data ids c
  = Ok (uuid5 NAMESPACE_DNS (c ++ join "_" (map str values))%string).
Proof.
  intros Hvalues. unfold _generate_uuid, join_items.
  assert (Hitems : str_items data ids = Ok (map str values)).
  { induction Hvalues as [|key v ids values Hkey _ IH]; [reflexivity|].
    cbn [str_items map]. unfold getitem. by rewrite Hkey, IH. }
  by rewrite Hitems.
Qed.

(** The id of a record is made of the collection name and the printed
    identifier values, put one after the other, so records that differ
    can share an id: a number and the text that prints like it; two
    identifier values and the two that move an underscore from one to the
    other; and a record of one collection and the record of a collection
    with a longer name whose value lacks what the name gained. *)
Theorem generate_uuid_collisions (d1 d2 : dict) (c : string) :
  (forall key n,
     d1 !! key = Some (VInt n) -> d2 !! key = Some (VStr (pretty n)) ->
     _generate_uuid d1 [key] c = _generate_uuid d2 [key] c)
  /\ (forall key1 key2 x y z,
        d1 !! key1 = Some (VStr (x ++ "_" ++ y)) -> d1 !! key2 = Some (VStr z) ->
        d2 !! key1 = Some (VStr x) -> d2 !! key2 = Some (VStr (y ++ "_" ++ z)) ->
        _generate_uuid d1 [key1; key2] c = _generate_uuid d2 [key1; key2] c)
  /\ (forall key x y,
        d1 !! key = Some (VStr (x ++ y)) -> d2 !! key = Some (VStr y) ->
        _generate_uuid d1 [key] c = _generate_uuid d2 [key] (c ++ x)).
Proof.
  split; [|split].
  - intros key n H1 H2.
    rewrite (generate_uuid_of_values d1 [key] c [VInt n]) by by repeat constructor.
    by rewrite (generate_uuid_of_values d2 [key] c [VStr (pretty n)])
      by by repeat constructor.
  - intros key1 key2 x y z H1 H1' H2 H2'.
    rewrite (generate_uuid_of_values d1 [key1; key2] c [VStr (x ++ "_" ++ y); VStr z])
      by by repeat constructor.
    rewrite (generate_uuid_of_values d2 [key1; key2] c [VStr x; VStr (y ++ "_" ++ z)])
      by by repeat constructor.
    cbn [map str join String.concat]. by rewrite <- !append_assoc.
  - intros key x y H1 H2.
    rewrite (generate_uuid_of_values d1 [key] c [VStr (x ++ y)]) by by repeat constructor.
    rewrite (generate_uuid_of_values d2 [key] (c ++ x) [VStr y]) by by repeat constructor.
    cbn [map str join String.concat]. by rewrite append_assoc.
Qed.

End Collisions.

(** *** The theorems at work on the in-memory server *)

#[local] Existing Instance mem.
#[local] Existing Instance mem_listing.

Lemma reload_sends_same_request_witness :
  let row : dict := {[ "id" := VInt 1; "name" := VStr "a" ]} in
  sent (start plain)
    (snd (start_file_load (demo_client None) (users_table "merge") [row]
            "1700000001.5" (start plain)))
  = sent (start populated)
      (snd (start_file_load (demo_client None) (users_table "merge") [row]
              "1700000002.5" (start populated))).
Proof.
  intros row.
  assert (Hids : _list_unique_identifiers (users_table "merge") <> [])
    by (vm_compute; discriminate).
  exact (reload_sends_same_request (H := mem) (demo_client None)
           (users_table "merge") [row] "1700000001.5" "1700000002.5"
           (start plain) (start populated) Hids).
Defined.

(** Without identifier columns the ids are drawn anew each time. *)
Example reload_without_identifiers :
  let row : dict := {[ "name" := VStr "a" ]} in
  let table := {| table_name := "notes"; write_disposition := Some "append";
                  columns := [{| column_name := "name"; column_props := ∅ |}] |} in
  let w := start plain in
  let w' := snd (start_file_load (demo_client None) table [row] "1" w) in
  sent w w' <> sent w' (snd (start_file_load (demo_client None) table [row] "1" w')).
Proof. vm_compute. discriminate. Qed.

Lemma drop_storage_reaches_longer_names_witness :
  let w := start two_datasets in
  fst (drop_storage (demo_client (Some "ds")) w) = Ok tt
  /\ delete_collection "ds_2_users" ∈ sent w (snd (drop_storage (demo_client (Some "ds")) w))
  /\ delete_collection "ds_2" ∈ sent w (snd (drop_storage (demo_client (Some "ds")) w)).
Proof.
  intros w.
  assert (Hok : fst (drop_storage (demo_client (Some "ds")) w) = Ok tt)
    by reflexivity.
  assert (Hlist : "ds_2_users" ∈ map fst (map_to_list two_datasets)
                  /\ "ds_2" ∈ map fst (map_to_list two_datasets)).
  { split; apply list_elem_of_fmap; eexists (_, []);
      (split; [reflexivity|]); by apply elem_of_map_to_list. }
  destruct (drop_storage_reaches_longer_names (H0 := mem_listing)
              (demo_client (Some "ds")) (demo_client (Some "ds_2")) "ds" "2" "users"
              (map fst (map_to_list two_datasets)) two_datasets w
              eq_refl eq_refl eq_refl eq_refl eq_refl Hok) as [Htable Hsentinel].
  split; [exact Hok|]. split; [exact (Htable (proj1 Hlist))|exact (Hsentinel (proj2 Hlist))].
Defined.

Lemma initialize_storage_creates_sentinel_witness :
  let w := start (∅ : store) in
  initialize_storage (demo_client (Some "ds")) (Some ["users"]) w
  = (Ok tt, after (after w (get_collection "ds")) (create_collection "ds")).
Proof.
  intros w.
  assert (Hmissing : says_missing
            (answer w (get_collection (sentinel_collection (demo_client (Some "ds")))))).
  { left. eexists. split; reflexivity. }
  exact (proj1 (initialize_storage_creates_sentinel (H := mem)
                  (demo_client (Some "ds")) (Some ["users"]) w) Hmissing).
Defined.

Lemma complete_load_writes_one_record_witness :
  let self := demo_client None in
  let w := start plain in
  let u := upsert "_dlt_loads"
             {| p_id := IntId (point_id_at (precise_time 1));
                p_payload := dict_of_zip (loads_collection_properties self)
                               [VStr "1700000001.5"; VStr "shop"; VInt 0;
                                VStr (pendulum_now 0); VStr "h3"] |} in
  complete_load self "1700000001.5" w
  = (match answer (tick (tick w)) u with RRaise e => Raise e | _ => Ok tt end,
     after (tick (tick w)) u)
  /\ p_payload (match u with upsert _ p => p | _ => {| p_id := IntId 0; p_payload := ∅ |} end)
     !! "load_id" = Some (VStr "1700000001.5").
Proof.
  intros self w u.
  assert (Hnodup : NoDup (loads_collection_properties self)).
  { apply (bool_decide_unpack _). by vm_compute. }
  destruct (complete_load_writes_one_record (H := mem) self "1700000001.5" w)
    as (_ & Hrun & Hpayload).
  split; [exact (Hrun eq_refl)|].
  exact (Hpayload Hnodup 0%nat "load_id" (VStr "1700000001.5") eq_refl eq_refl).
Defined.

End QdrantMoreFacts.

(** ** More properties of the pipeline helpers *)

Module HelpersMoreFacts.
Import Helpers HelpersSpec ToyPipeline HelpersMore.

(** *** retry_load *)

(** Allowing more steps never turns a retry into a refusal, and with no
    step allowed no failure of a pipeline step is retried: what is retried
    then is not a [PipelineStepFailed]. *)
Theorem retry_load_monotone (steps steps' : list string) (ex : BaseException) :
  steps ⊆ steps' ->
  (retry_load steps ex = true -> retry_load steps' ex = true)
  /\ (retry_load [] ex = true -> step_of ex = None).
Proof.
  intros Hsub. destruct ex as [step_failed terminal context].
  unfold retry_load. cbn [step_of is_terminal context_of]. split.
  - destruct step_failed as [step|]; [|done].
    destruct (bool_decide (step ∈ steps)) eqn:Hin; [|discriminate].
    apply bool_decide_eq_true_1 in Hin.
    by rewrite (bool_decide_eq_true_2 (step ∈ steps')) by by apply Hsub.
  - destruct step_failed as [step|]; [|done].
    rewrite bool_decide_eq_false_2 by apply not_elem_of_nil. discriminate.
Qed.

Lemma retry_load_monotone_witness :
  retry_load ["load"; "normalize"] (Exc (Some "load") false None) = true.
Proof.
  assert (Hsub : ["load"] ⊆ ["load"; "normalize"]).
  { intros step Hin. apply list_elem_of_singleton in Hin as ->. apply list_elem_of_here. }
  exact (proj1 (retry_load_monotone ["load"] ["load"; "normalize"]
                  (Exc (Some "load") false None) Hsub) eq_refl).
Defined.

(** *** DropCommand *)

Section MoreDropFacts.
Context `{PipelineOps}.

(** [drop] checks before it calls: on a pipeline without a default schema
    name it raises [PipelineNeverRan], also when a schema name is given;
    when the pipeline has no schema under the name asked for it raises the
    [KeyError] of that name; when the command is built and the pipeline
    has pending data it raises [PipelineHasPendingDataException].  In
    these three cases, and only then does it raise one of these, no
    method of the pipeline has been called and the pipeline is as it
    was. *)
Theorem drop_checks_before_it_calls (pipeline : Pipeline) (resources : list string)
    (schema_name : option string) (state_paths : list string)
    (drop_all state_only : bool) (calls : list pcall) :
  let out := drop pipeline resources schema_name state_paths drop_all state_only calls in
  (Qdrant.truthy_opt (default_schema_name pipeline) = false ->
   out = (Fail (PipelineNeverRan (pipeline_name pipeline) (pipelines_dir pipeline)),
          (pipeline, calls)))
  /\ (Qdrant.truthy_opt (default_schema_name pipeline) = true ->
      schemas_get pipeline (schema_key pipeline schema_name) = None ->
      out = (Fail (SchemaKeyError (schema_key pipeline schema_name)), (pipeline, calls)))
  /\ (Qdrant.truthy_opt (default_schema_name pipeline) = true ->
      schemas_get pipeline (schema_key pipeline schema_name) <> None ->
      has_pending_data pipeline = true ->
      out = (Fail (PipelineHasPendingDataException (pipeline_name pipeline)
                     (pipelines_dir pipeline)),
             (pipeline, calls)))
  /\ (forall e, fst out = Fail e -> (forall ex, e <> Raised ex) ->
                snd out = (pipeline, calls)).
Proof.
  cbv zeta. unfold drop, DropCommand_init. fold (schema_key pipeline schema_name).
  destruct (Qdrant.truthy_opt (default_schema_name pipeline)); cbn [negb fst snd].
  2:{ split; [done|]. split; [done|]. split; [done|]. done. }
  split; [done|].
  destruct (schemas_get pipeline (schema_key pipeline schema_name)) as [schema|].
  2:{ split; [done|]. split; [done|]. done. }
  destruct (drop_resources schema (state pipeline) resources state_paths
              drop_all state_only) as [[[new_schema new_state] drop_info] dropped].
  split; [done|]. unfold DropCommand_call, invoke. cbn [fst snd].
  destruct (has_pending_data pipeline); [by split|].
  split; [done|]. intros e.
  destruct (sync_destination pipeline) as [[ex|] p1]; cbn [fst snd];
    [intros [= <-] Hno; by destruct (Hno ex)|].
  destruct (_ && _); [discriminate|].
  destruct (_save_and_extract_state_and_schema _ _ _ p1) as [[ex|] p2]; cbn [fst snd];
    [intros [= <-] Hno; by destruct (Hno ex)|].
  destruct (normalize p2) as [[ex|] p3]; cbn [fst snd];
    [intros [= <-] Hno; by destruct (Hno ex)|].
  destruct (load true p3) as [[ex|] p4]; cbn [fst snd];
    [intros [= <-] Hno; by destruct (Hno ex)|discriminate].
Qed.


End MoreDropFacts.

(** *** refresh_source *)

Section RefreshFacts.
Context `{RefreshOps}.

(** What [refresh_source] leaves alone.  On a first run it returns the
    empty dictionary and touches neither the source nor the pipeline
    state.  Otherwise the planner is asked once: in the mode
    [drop_sources] for everything, with no resource named and the one
    state path made of an asterisk; in every other mode for the extracted
    resources and no state path.  Of the pipeline state only the entry [sources] can change, and
    it becomes the [sources] of the planned state when that has one.  The
    load package state returned has at most one entry, whose list of
    tables is not empty: under [truncated_tables] for the mode
    [drop_data], which also leaves the schema of the source as it was, and
    under [dropped_tables] for every other mode. *)
Theorem refresh_source_frame (first_run : bool) (pipeline_state : gmap string RValue)
    (source : DltSource) (refresh : string) :
  let out := refresh_source first_run pipeline_state source refresh in
  let load_package_state := fst (fst out) in
  let source' := snd (fst out) in
  let pipeline_state' := snd out in
  let everything := bool_decide (refresh = "drop_sources") in
  let planned :=
    plan_drop (source_schema source) pipeline_state
      (if everything then [] else resources_extracted source)
      (if everything then ["*"] else []) everything (source_name source) in
  (first_run = true -> out = (∅, source, pipeline_state))
  /\ (forall key, key <> "sources" -> pipeline_state' !! key = pipeline_state !! key)
  /\ (first_run = false ->
      pipeline_state' !! "sources"
      = match snd (fst planned) !! "sources" with
        | Some sources => Some sources
        | None => pipeline_state !! "sources"
        end)
  /\ (first_run = false -> snd planned <> [] ->
      load_package_state
      = {[ (if bool_decide (refresh = "drop_data")
            then "truncated_tables" else "dropped_tables") := snd planned ]})
  /\ (forall key tables, load_package_state !! key = Some tables ->
        tables <> [] /\ load_package_state = {[ key := tables ]})
  /\ (refresh = "drop_data" -> source' = source)
  /\ (first_run = false -> refresh <> "drop_data" ->
      source_schema source' = fst (fst planned)).
Proof.
  cbv zeta. unfold refresh_source. destruct first_run.
  { cbn [fst snd]. by repeat split. }
  destruct (bool_decide (refresh = "drop_sources")); cbn [negb];
    destruct (plan_drop _ _ _ _ _ _) as [[new_schema new_state] dropped_tables];
    cbn [fst snd];
    (split; [discriminate|]); (split; [|split; [|split; [|split; [|split]]]]).
  all: try (intros key Hkey; destruct (new_state !! "sources"); [|reflexivity];
            by rewrite lookup_insert_ne).
  all: try (intros _; destruct (new_state !! "sources"); [|reflexivity];
            by rewrite lookup_insert_eq).
  all: try (intros _ Hne; destruct dropped_tables as [|t ts]; [done|];
            cbn [truthy_list]; by destruct (bool_decide (refresh = "drop_data"))).
  all: try (intros key tables; destruct dropped_tables as [|t ts]; cbn [truthy_list];
            [intros Hin; by rewrite lookup_empty in Hin|];
            intros Hin; apply lookup_singleton_Some in Hin as [<- <-];
            split; [discriminate|reflexivity]).
  all: try (intros ->; by rewrite bool_decide_eq_true_2).
  all: intros _ Hmode; by rewrite bool_decide_eq_false_2.
Qed.

End RefreshFacts.

(** *** The theorems at work on the pipeline kept in memory *)

#[local] Existing Instance toy.

Lemma drop_checks_before_it_calls_witness :
  let fresh := {| tp_name := "fresh"; tp_dir := "/var/dlt/pipelines";
                  tp_default := None; tp_schemas := {[ "shop" := shop ]};
                  tp_state := {| st_resources := []; st_keys := [];
                                 st_extract := false |};
                  tp_packages := []; tp_synced := 0; tp_load_raises := None |} in
  drop fresh ["users"] (Some "shop") [] false false []
  = (Fail (PipelineNeverRan "fresh" "/var/dlt/pipelines"), (fresh, [])).
Proof.
  intros fresh.
  exact (proj1 (drop_checks_before_it_calls (H := toy) fresh ["users"] (Some "shop")
                  [] false false []) eq_refl).
Defined.

End HelpersMoreFacts.
